(** * The grader panel service: start-up, shutdown, model encoding, defaults

    A model of [app.New] and [App.Stop] (package [app] of the panel), of the
    JSON view of [model.User], and of the defaults that [initConfig] of the
    grader command installs.  The collaborators of [app.New] (database,
    broker, router, ...) are opaque: a call to one of them is an event of the
    run, and the error it returns is taken from the [world] the run happens
    in.  Goroutines and the stop channel are modelled by a small interleaving
    machine, so that a statement about "every run" is a statement about every
    schedule of that machine. *)

From Stdlib Require Import ZArith Lia.
From Stdlib Require Import Strings.Ascii Strings.Byte.
From stdpp Require Import base option list strings gmap.

Local Open Scope string_scope.
Local Open Scope list_scope.

(** ** Errors *)

(** A Go [error] value.  [Cause] is an error produced by a collaborator,
    [Errorf p e] is [fmt.Errorf(p ++ "%w", e)]; the nil error is [None] of
    [option error]. *)
Inductive error : Type :=
| Cause (msg : string)
| Errorf (prefix : string) (cause : error).

(** [errors.Unwrap]. *)
Definition Unwrap (e : error) : option error :=
  match e with
  | Cause _ => None
  | Errorf _ c => Some c
  end.

(** ** Go's [int] *)

(** [int] is 64 bits wide on the platforms the service is built for;
    arithmetic wraps around in two's complement. *)
Definition int_bits : Z := 64.

Definition int_wrap (z : Z) : Z :=
  (z + 2 ^ (int_bits - 1)) mod 2 ^ int_bits - 2 ^ (int_bits - 1).

Definition int_mul (a b : Z) : Z := int_wrap (a * b).

(** ** Collaborators *)

(** The long-lived objects [App] holds on to. *)
Inductive resource : Type := Logger | Queue | Workers | Server | S3.

(** The calls [New] and [Stop] make into other packages, one constructor per
    call site, in the order of the source text. *)
Inductive call : Type :=
| logger_Global
| workerpool_New
| sql_Open
| db_Ping
| migrate_Up
| amqp_New
| redis_NewClient
| token_NewJWT
| session_NewRedis
| aws_NewS3
| postgres_NewUserRepository
| postgres_NewAssessmentRepository
| postgres_NewSubmissionRepository
| chi_NewRouter
| router_Use_Recoverer
| router_Use_Log
| layout_NewLayout
| handler_NewUserHandler
| handler_NewAdminHandler
| handler_NewSubmitHandler
| router_Route_app
| router_Handle_static
| httpserver_New
| Start (r : resource) (n : Z)
| Stop (r : resource).

(** What the collaborators answer in one particular run: the error of each
    fallible call ([None] is nil) and the value of [runtime.GOMAXPROCS(0)]. *)
Record world : Type := World {
  sql_Open_err : option error;
  db_Ping_err : option error;
  migrate_Up_err : option error;
  amqp_New_err : option error;
  token_NewJWT_err : option error;
  aws_NewS3_err : option error;
  NewUserRepository_err : option error;
  NewAssessmentRepository_err : option error;
  NewSubmissionRepository_err : option error;
  layout_NewLayout_err : option error;
  NewSubmitHandler_err : option error;
  httpserver_New_err : option error;
  GOMAXPROCS : Z
}.

Definition answer (w : world) (c : call) : option error :=
  match c with
  | sql_Open => sql_Open_err w
  | db_Ping => db_Ping_err w
  | migrate_Up => migrate_Up_err w
  | amqp_New => amqp_New_err w
  | token_NewJWT => token_NewJWT_err w
  | aws_NewS3 => aws_NewS3_err w
  | postgres_NewUserRepository => NewUserRepository_err w
  | postgres_NewAssessmentRepository => NewAssessmentRepository_err w
  | postgres_NewSubmissionRepository => NewSubmissionRepository_err w
  | layout_NewLayout => layout_NewLayout_err w
  | handler_NewSubmitHandler => NewSubmitHandler_err w
  | httpserver_New => httpserver_New_err w
  | _ => None
  end.

(** A world in which every collaborator succeeds. *)
Definition fair_world (procs : Z) : world :=
  World None None None None None None None None None None None None procs.

(** ** Programs *)

(** Channels are named by their index in the machine's channel table. *)
Definition chan : Type := nat.

(** The effects of the modelled code, as a free monad: calls into other
    packages, [runtime.GOMAXPROCS(0)], [make(chan struct{})], [close(c)],
    [<-c] and the [go] statement. *)
Inductive prog (R : Type) : Type :=
| Ret (r : R)
| Call (c : call) (k : option error → prog R)
| NumProcs (k : Z → prog R)
| MakeChan (k : chan → prog R)
| Close (c : chan) (k : prog R)
| Recv (c : chan) (k : prog R)
| Go (g : prog unit) (k : prog R).

Arguments Ret {R} r.
Arguments Call {R} c k.
Arguments NumProcs {R} k.
Arguments MakeChan {R} k.
Arguments Close {R} c k.
Arguments Recv {R} c k.
Arguments Go {R} g k.

Fixpoint bind {A B : Type} (p : prog A) (f : A → prog B) : prog B :=
  match p with
  | Ret a => f a
  | Call c k => Call c (λ e, bind (k e) f)
  | NumProcs k => NumProcs (λ n, bind (k n) f)
  | MakeChan k => MakeChan (λ c, bind (k c) f)
  | Close c k => Close c (bind k f)
  | Recv c k => Recv c (bind k f)
  | Go g k => Go g (bind k f)
  end.

#[global] Instance prog_ret : MRet prog := @Ret.
#[global] Instance prog_bind : MBind prog := λ A B f p, bind p f.

Definition invoke (c : call) : prog (option error) := Call c Ret.
Definition numprocs : prog Z := NumProcs Ret.
Definition make_chan : prog chan := MakeChan Ret.
Definition close (c : chan) : prog unit := Close c (Ret tt).
Definition recv (c : chan) : prog unit := Recv c (Ret tt).
Definition go (g : prog unit) : prog unit := Go g (Ret tt).

(** ** The application *)

(** The parts of [config.Config] that [New] reads. *)
Record Config : Type := {
  DB_DSN : string;
  Security_SecretKey : string;
  App_TopicName : string
}.

Record App : Type := {
  config : Config;
  logger : resource;
  stop : chan;
  queue : resource;
  workers : resource;
  server : resource;
  s3 : resource
}.

(** [if err != nil { return nil, fmt.Errorf(p ++ "%w", err) }] *)
Notation "'nil_or_return' err 'wrapped' p ; k" :=
  (match err with
   | Some e => mret (None, Some (Errorf p e))
   | None => k
   end)
  (at level 20, err at level 9, p at level 9, k at level 200, only parsing).

Definition New (cfg : Config) : prog (option App * option error) :=
  _ ← invoke logger_Global;
  _ ← invoke workerpool_New;
  err ← invoke sql_Open;
  nil_or_return err wrapped "db open: ";
  err ← invoke db_Ping;
  nil_or_return err wrapped "db ping: ";
  err ← invoke migrate_Up;
  nil_or_return err wrapped "migrate up: ";
  err ← invoke amqp_New;
  nil_or_return err wrapped "amqp: ";
  _ ← invoke redis_NewClient;
  err ← invoke token_NewJWT;
  nil_or_return err wrapped "token manager: ";
  _ ← invoke session_NewRedis;
  err ← invoke aws_NewS3;
  nil_or_return err wrapped "s3: ";
  err ← invoke postgres_NewUserRepository;
  nil_or_return err wrapped "user repository: ";
  err ← invoke postgres_NewAssessmentRepository;
  nil_or_return err wrapped "assessments repository: ";
  err ← invoke postgres_NewSubmissionRepository;
  nil_or_return err wrapped "assessments repository: ";
  _ ← invoke chi_NewRouter;
  _ ← invoke router_Use_Recoverer;
  _ ← invoke router_Use_Log;
  err ← invoke layout_NewLayout;
  nil_or_return err wrapped "templates: ";
  _ ← invoke handler_NewUserHandler;
  _ ← invoke handler_NewAdminHandler;
  err ← invoke handler_NewSubmitHandler;
  nil_or_return err wrapped "submission handler: ";
  _ ← invoke router_Route_app;
  _ ← invoke router_Handle_static;
  err ← invoke httpserver_New;
  nil_or_return err wrapped "http server: ";
  c ← make_chan;
  let a := {| config := cfg; logger := Logger; stop := c; queue := Queue;
              server := Server; workers := Workers; s3 := S3 |} in
  _ ← go (_ ← recv (stop a); _ ← invoke (Stop Queue); mret tt);
  n ← numprocs;
  _ ← invoke (Start Workers (int_mul n 2));
  mret (Some a, None).

Definition App_Stop (a : App) : prog unit :=
  _ ← close (stop a);
  _ ← invoke (Stop (server a));
  _ ← invoke (Stop (workers a));
  mret tt.

(** ** The machine *)

(** What can be observed of a run.  An external call is two events, its
    invocation and its return, so that other goroutines may run while the
    callee works. *)
Inductive event : Type :=
| EvCall (c : call)
| EvRet (c : call)
| EvNumProcs
| EvMake (c : chan)
| EvClose (c : chan)
| EvRecv (c : chan)
| EvGo
| EvPanic (msg : string).

(** A goroutine is either about to run [p], or inside the external call [c]
    that will resume with [k]. *)
Inductive thread (R : Type) : Type :=
| Running (p : prog R)
| Pending (c : call) (k : option error → prog R).

Arguments Running {R} p.
Arguments Pending {R} c k.

(** One move of one goroutine.  A channel of the table is [true] once it is
    closed.  No goroutine of the modelled code ever sends, so a receive
    proceeds only on a closed channel; closing a closed channel panics, as
    does closing a channel that was never made. *)
Inductive move (R : Type) : Type :=
| Blocked
| Moved (t : thread R) (e : event) (cs : list bool) (fresh : list (thread unit))
| Panicked (e : event).

Arguments Blocked {R}.
Arguments Moved {R} t e cs fresh.
Arguments Panicked {R} e.

Definition thread_step {R : Type} (w : world) (cs : list bool) (t : thread R)
  : move R :=
  match t with
  | Pending c k => Moved (Running (k (answer w c))) (EvRet c) cs []
  | Running (Ret _) => Blocked
  | Running (Call c k) => Moved (Pending c k) (EvCall c) cs []
  | Running (NumProcs k) => Moved (Running (k (GOMAXPROCS w))) EvNumProcs cs []
  | Running (MakeChan k) =>
      Moved (Running (k (length cs))) (EvMake (length cs)) (cs ++ [false]) []
  | Running (Close c k) =>
      match cs !! c with
      | Some false => Moved (Running k) (EvClose c) (<[c:=true]> cs) []
      | Some true => Panicked (EvPanic "close of closed channel")
      | None => Panicked (EvPanic "close of nil channel")
      end
  | Running (Recv c k) =>
      match cs !! c with
      | Some true => Moved (Running k) (EvRecv c) cs []
      | _ => Blocked
      end
  | Running (Go g k) => Moved (Running k) EvGo cs [Running g]
  end.

(** The whole program: the goroutine under study ([main]), the goroutines it
    has started, the channel table, the events so far (oldest first), and
    whether a panic has brought the process down. *)
Record machine (R : Type) : Type := Machine {
  main : thread R;
  gos : list (thread unit);
  chans : list bool;
  trace : list event;
  crashed : bool
}.

Arguments Machine {R} main gos chans trace crashed.
Arguments main {R} m.
Arguments gos {R} m.
Arguments chans {R} m.
Arguments trace {R} m.
Arguments crashed {R} m.

Definition boot {R : Type} (p : prog R) : machine R :=
  Machine (Running p) [] [] [] false.

(** Goroutine [0] is [main]; goroutine [S i] is the [i]-th started one.  An
    unrecovered panic ends every goroutine. *)
Definition step {R : Type} (w : world) (tid : nat) (m : machine R)
  : option (machine R) :=
  if crashed m then None else
  match tid with
  | O =>
      match thread_step w (chans m) (main m) with
      | Blocked => None
      | Moved t e cs fresh =>
          Some (Machine t (gos m ++ fresh) cs (trace m ++ [e]) false)
      | Panicked e =>
          Some (Machine (main m) (gos m) (chans m) (trace m ++ [e]) true)
      end
  | S i =>
      match gos m !! i with
      | None => None
      | Some g =>
          match thread_step w (chans m) g with
          | Blocked => None
          | Moved t e cs fresh =>
              Some (Machine (main m) (<[i:=t]> (gos m) ++ fresh) cs
                      (trace m ++ [e]) false)
          | Panicked e =>
              Some (Machine (main m) (gos m) (chans m) (trace m ++ [e]) true)
          end
      end
  end.

(** A schedule names the goroutine to move at each turn; a turn given to a
    goroutine that cannot move is lost. *)
Fixpoint run {R : Type} (w : world) (sched : list nat) (m : machine R)
  : machine R :=
  match sched with
  | [] => m
  | tid :: sched' => run w sched' (default m (step w tid m))
  end.

(** The value [main] has returned, if it has. *)
Definition result {R : Type} (m : machine R) : option R :=
  match main m with
  | Running (Ret r) => Some r
  | _ => None
  end.

(** Every state one move away, and whether none is. *)
Definition succs {R : Type} (w : world) (m : machine R) : list (machine R) :=
  omap (λ tid, step w tid m) (seq 0 (S (length (gos m)))).

Definition quiescent {R : Type} (w : world) (m : machine R) : bool :=
  bool_decide (succs w m = []).

(** ** Exhaustive exploration *)

(** [frontier w n m] lists the states exactly [n] moves after [m];
    [explore w n m] lists the states at most [n] moves after [m]. *)
Fixpoint frontier {R : Type} (w : world) (n : nat) (m : machine R)
  : list (machine R) :=
  match n with
  | O => [m]
  | S n' => succs w m ≫= frontier w n'
  end.

Fixpoint explore {R : Type} (w : world) (n : nat) (m : machine R)
  : list (machine R) :=
  m :: match n with
       | O => []
       | S n' => succs w m ≫= explore w n'
       end.

(** What the claims look at: the value returned by [main], the events, and
    whether the process has panicked or come to rest. *)
Record view (R : Type) : Type := View {
  returned : option R;
  events : list event;
  panicked : bool;
  at_rest : bool
}.

Arguments View {R} returned events panicked at_rest.
Arguments returned {R} v.
Arguments events {R} v.
Arguments panicked {R} v.
Arguments at_rest {R} v.

Definition observe {R : Type} (w : world) (m : machine R) : view R :=
  View (result m) (trace m) (crashed m) (quiescent w m).

(** The clients of the package under study: a service that starts, and one
    that starts and then calls [App.Stop] [n] times. *)
Fixpoint stops (n : nat) (a : App) : prog unit :=
  match n with
  | O => mret tt
  | S n' => _ ← App_Stop a; stops n' a
  end.

Definition service (cfg : Config) (n : nat) : prog (option error) :=
  r ← New cfg;
  match r with
  | (Some a, None) => _ ← stops n a; mret None
  | (_, err) => mret err
  end.

(** ** Reading traces *)

#[global] Instance resource_eq_dec : EqDecision resource.
Proof. solve_decision. Defined.

#[global] Instance call_eq_dec : EqDecision call.
Proof. solve_decision. Defined.

(** Event classes: the invocation of a given call, its return, the start of
    a given resource (with whatever bound), the closing of a channel. *)
Definition invokes (c : call) (e : event) : bool :=
  match e with
  | EvCall c' => bool_decide (c' = c)
  | _ => false
  end.

Definition returns (c : call) (e : event) : bool :=
  match e with
  | EvRet c' => bool_decide (c' = c)
  | _ => false
  end.

Definition starts (r : resource) (e : event) : bool :=
  match e with
  | EvCall (Start r' _) => bool_decide (r' = r)
  | _ => false
  end.

Definition closes (c : chan) (e : event) : bool :=
  match e with
  | EvClose c' => bool_decide (c' = c)
  | _ => false
  end.

Definition count (f : event → bool) (t : list event) : nat :=
  length (List.filter f t).

(** [precedes a b t]: every [b]-event of [t] has an [a]-event before it. *)
Definition precedes (a b : event → bool) (t : list event) : Prop :=
  ∀ i e, t !! i = Some e → b e = true →
    ∃ j e', j < i ∧ t !! j = Some e' ∧ a e' = true.

Fixpoint precedesb (a b : event → bool) (t : list event) : bool :=
  match t with
  | [] => true
  | e :: t' => if b e then false else if a e then true else precedesb a b t'
  end.

(** [final_failure w t]: in [t], nothing follows the return of a call that
    answered with an error. *)
Definition final_failure (w : world) (t : list event) : Prop :=
  ∀ t1 c t2, t = t1 ++ EvRet c :: t2 → is_Some (answer w c) → t2 = [].

Fixpoint final_failureb (w : world) (t : list event) : bool :=
  match t with
  | [] => true
  | EvRet c :: t' =>
      match answer w c with
      | Some _ => match t' with [] => true | _ => false end
      | None => final_failureb w t'
      end
  | _ :: t' => final_failureb w t'
  end.

(** The calls of [t] that concern the Worker Pool. *)
Definition pool_calls (t : list event) : list call :=
  omap (λ e, match e with
             | EvCall workerpool_New => Some workerpool_New
             | EvCall (Start Workers n) => Some (Start Workers n)
             | EvCall (Stop Workers) => Some (Stop Workers)
             | _ => None
             end) t.

(** The events of a start-up in which nothing fails, in order. *)
Definition New_events (procs : Z) : list event :=
  ([logger_Global; workerpool_New; sql_Open; db_Ping; migrate_Up; amqp_New;
    redis_NewClient; token_NewJWT; session_NewRedis; aws_NewS3;
    postgres_NewUserRepository; postgres_NewAssessmentRepository;
    postgres_NewSubmissionRepository; chi_NewRouter; router_Use_Recoverer;
    router_Use_Log; layout_NewLayout; handler_NewUserHandler;
    handler_NewAdminHandler; handler_NewSubmitHandler; router_Route_app;
    router_Handle_static; httpserver_New] ≫= λ c, [EvCall c; EvRet c])
  ++ [EvMake 0; EvGo; EvNumProcs;
      EvCall (Start Workers (int_mul procs 2));
      EvRet (Start Workers (int_mul procs 2))].

(** A configuration to run examples with. *)
Definition demo_config : Config :=
  {| DB_DSN := "postgres://panel@db/panel";
     Security_SecretKey := "secret";
     App_TopicName := "submissions" |}.

(** Schedules of the examples.  [New] takes fifty-one moves when nothing
    fails, and [App.Stop] five. *)

(** The schedule that lets [main] start the service and close the stop
    channel, then lets the goroutine of [New] call the queue's [Stop]. *)
Definition eager_queue_stop : list nat := replicate 52 0 ++ [1; 1].

(** The schedule that lets [main] start and stop the service before the
    goroutine of [New] moves. *)
Definition late_queue_stop : list nat := replicate 56 0 ++ [1; 1; 1].

(** The schedule that lets [main] run alone. *)
Definition main_only : list nat := replicate 60 0.


(** * The Worker Pool (package [workerpool])

    The package is used by [app.New] and [App.Stop]; what it does is taken
    from its description (sections 3 and 4.2 of the specification). *)

Module workerpool.

(** Modelled from the spec: the Job of section 3, of which the pool needs
    only the [id]; the code of [workerpool] and of the job type is missing. *)
Definition Job : Type := nat.

(** Modelled from the spec: an executor unit of the missing [workerpool]
    package; it waits for a job, is inside one invocation of the grading
    function, or has exited. *)
Inductive executor : Type :=
| Idle
| Grading (j : Job)
| Exited.

(** Modelled from the spec: the misuse guard of the missing [workerpool]
    package. *)
Inductive pool_error : Type :=
| AlreadyStartedError.

(** Modelled from the spec: the state of the missing [workerpool.Pool], "an
    owned, fixed-size collection of executor units plus one shared intake
    channel", with the bookkeeping of acknowledgements: jobs acked, retry
    counts by job id, and jobs dead-lettered after [retry_limit] requeues. *)
Record Pool : Type := {
  started : bool;
  stopping : bool;
  units : list executor;
  intake : list Job;
  acked : list Job;
  retries : gmap Job nat;
  dead : list Job;
  retry_limit : nat
}.

(** Modelled from the spec: the missing [workerpool.New]; a pool that has
    not been started has no executor unit. *)
Definition New (limit : nat) : Pool :=
  {| started := false; stopping := false; units := []; intake := [];
     acked := []; retries := ∅; dead := []; retry_limit := limit |}.

(** Modelled from the spec: the missing [Pool.Start], which "spawns
    [concurrency] executor units" and is "idempotent-guarded: starting an
    already-started pool fails with [AlreadyStartedError]". *)
Definition Start (concurrency : Z) (p : Pool) : Pool * option pool_error :=
  if started p then (p, Some AlreadyStartedError)
  else
    ({| started := true; stopping := stopping p;
        units := replicate (Z.to_nat concurrency) Idle;
        intake := intake p; acked := acked p; retries := retries p;
        dead := dead p; retry_limit := retry_limit p |}, None).

(** Modelled from the spec: the missing [Pool.Stop], which "signals all
    executor units to stop pulling new jobs"; the units then exit one by one
    (see [Exit]), and [Stop] returns once [drained]. *)
Definition Stop (p : Pool) : Pool :=
  {| started := started p; stopping := true; units := units p;
     intake := intake p; acked := acked p; retries := retries p;
     dead := dead p; retry_limit := retry_limit p |}.

Definition is_exited (u : executor) : bool :=
  match u with Exited => true | _ => false end.

(** Modelled from the spec: the condition on which the missing [Pool.Stop]
    returns, "once all units have exited". *)
Definition drained (p : Pool) : bool := forallb is_exited (units p).

Definition with_units (us : list executor) (p : Pool) : Pool :=
  {| started := started p; stopping := stopping p; units := us;
     intake := intake p; acked := acked p; retries := retries p;
     dead := dead p; retry_limit := retry_limit p |}.

(** Modelled from the spec: the broker hands a job to the intake of the
    missing pool. *)
Definition Deliver (j : Job) (p : Pool) : Pool :=
  {| started := started p; stopping := stopping p; units := units p;
     intake := intake p ++ [j]; acked := acked p; retries := retries p;
     dead := dead p; retry_limit := retry_limit p |}.

(** Modelled from the spec: unit [i] of the missing pool, idle and not told
    to stop, takes the next job of the intake and invokes the grading
    function on it. *)
Definition Pull (i : nat) (p : Pool) : Pool :=
  match units p !! i, intake p, stopping p with
  | Some Idle, j :: rest, false =>
      {| started := started p; stopping := false;
         units := <[i:=Grading j]> (units p);
         intake := rest; acked := acked p; retries := retries p;
         dead := dead p; retry_limit := retry_limit p |}
  | _, _, _ => p
  end.

(** Modelled from the spec: the grading function of unit [i] of the missing
    pool returns.  "On success, acks the message"; "on error, nacks with
    requeue=true up to a bounded retry count tracked per Job id; beyond the
    bound, nacks with requeue=false" and the job is dead-lettered. *)
Definition Finish (i : nat) (ok : bool) (p : Pool) : Pool :=
  match units p !! i with
  | Some (Grading j) =>
      let us := <[i:=Idle]> (units p) in
      if ok then
        {| started := started p; stopping := stopping p; units := us;
           intake := intake p; acked := acked p ++ [j];
           retries := retries p; dead := dead p;
           retry_limit := retry_limit p |}
      else
        let n := default 0 (retries p !! j) in
        if decide (n < retry_limit p) then
          {| started := started p; stopping := stopping p; units := us;
             intake := intake p ++ [j]; acked := acked p;
             retries := <[j:=S n]> (retries p); dead := dead p;
             retry_limit := retry_limit p |}
        else
          {| started := started p; stopping := stopping p; units := us;
             intake := intake p; acked := acked p; retries := retries p;
             dead := dead p ++ [j]; retry_limit := retry_limit p |}
  | _ => p
  end.

(** Modelled from the spec: unit [i] of the missing pool, idle and told to
    stop, exits. *)
Definition Exit (i : nat) (p : Pool) : Pool :=
  match units p !! i, stopping p with
  | Some Idle, true => with_units (<[i:=Exited]> (units p)) p
  | _, _ => p
  end.

(** Modelled from the spec: what can happen to the missing pool, and the
    effect of a sequence of such happenings. *)
Inductive op : Type :=
| DoStart (concurrency : Z)
| DoDeliver (j : Job)
| DoPull (i : nat)
| DoFinish (i : nat) (ok : bool)
| DoStop
| DoExit (i : nat).

Definition apply (o : op) (p : Pool) : Pool :=
  match o with
  | DoStart k => (Start k p).1
  | DoDeliver j => Deliver j p
  | DoPull i => Pull i p
  | DoFinish i ok => Finish i ok p
  | DoStop => Stop p
  | DoExit i => Exit i p
  end.

Definition after (ops : list op) (p : Pool) : Pool :=
  foldl (λ p o, apply o p) p ops.

Definition is_grading (u : executor) : bool :=
  match u with Grading _ => true | _ => false end.

(** Modelled from the spec: "the number of concurrently executing grading
    calls" of the missing pool. *)
Definition executing (p : Pool) : nat :=
  length (List.filter is_grading (units p)).

(** Three jobs arrive and three units try to take one each. *)
Definition busy : list op :=
  [DoDeliver 1; DoDeliver 2; DoDeliver 3; DoPull 0; DoPull 1; DoPull 1;
   DoPull 2].

End workerpool.

(** * [model.User] and its JSON view *)

(** [uuid.UUID] is an array of sixteen bytes. *)
Definition UUID : Type := list byte.

Record User : Type := {
  ID : UUID;
  Name : string;
  Password : string;
  IsAdmin : bool
}.

Definition hex_digit (n : N) : ascii :=
  if (n <? 10)%N then ascii_of_N (48 + n) else ascii_of_N (87 + n).

Definition hex_byte (b : byte) : string :=
  let n := Byte.to_N b in
  String (hex_digit (n / 16)) (String (hex_digit (n mod 16)) EmptyString).

Definition hex (bs : list byte) : string :=
  foldr (λ b s, hex_byte b +:+ s) EmptyString bs.

(** [UUID.String]: the form xxxxxxxx-xxxx-xxxx-xxxx-xxxxxxxxxxxx. *)
Definition UUID_String (u : UUID) : string :=
  hex (take 4 u) +:+ "-" +:+ hex (take 2 (drop 4 u)) +:+ "-" +:+
  hex (take 2 (drop 6 u)) +:+ "-" +:+ hex (take 2 (drop 8 u)) +:+ "-" +:+
  hex (drop 10 u).

Definition Identity (u : User) : string := UUID_String (ID u).

(** What [encoding/json] sees of a struct by reflection: for each field its
    Go name, the [json] key of its tag, and its value.  A [uuid.UUID]
    marshals as text. *)
Inductive go_value : Type :=
| GoString (s : string)
| GoBool (b : bool)
| GoText (s : string).

Record struct_field : Type := {
  field_name : string;
  json_tag : string;
  field_value : go_value
}.

Definition User_fields (u : User) : list struct_field :=
  [ {| field_name := "ID"; json_tag := "id";
       field_value := GoText (UUID_String (ID u)) |};
    {| field_name := "Name"; json_tag := "name";
       field_value := GoString (Name u) |};
    {| field_name := "Password"; json_tag := "-";
       field_value := GoString (Password u) |};
    {| field_name := "IsAdmin"; json_tag := "-";
       field_value := GoBool (IsAdmin u) |} ].

(** The name part of a tag: what comes before the first comma. *)
Fixpoint tag_name (tag : string) : string :=
  match tag with
  | EmptyString => EmptyString
  | String c rest =>
      if decide (c = ","%char) then EmptyString else String c (tag_name rest)
  end.

(** The key a field is encoded under: none when the tag is ["-"], the name
    of the tag when it has one, the name of the field otherwise. *)
Definition json_key (f : struct_field) : option string :=
  if decide (json_tag f = "-") then None
  else
    let n := tag_name (json_tag f) in
    Some (if decide (n = EmptyString) then field_name f else n).

Definition double_quote : string := String "034"%char EmptyString.
Definition backslash : string := String "092"%char EmptyString.

(** The escaping of one character in a JSON string, as [json.Marshal] does
    it for ASCII; bytes of multi-byte characters are copied. *)
Definition json_escape (c : ascii) : string :=
  let n := N_of_ascii c in
  if (n =? 34)%N then backslash +:+ double_quote
  else if (n =? 92)%N then backslash +:+ backslash
  else if (n =? 10)%N then backslash +:+ "n"
  else if (n =? 13)%N then backslash +:+ "r"
  else if (n =? 9)%N then backslash +:+ "t"
  else if ((n <? 32) || (n =? 60) || (n =? 62) || (n =? 38))%N then
    backslash +:+ "u00" +:+
    String (hex_digit (n / 16)) (String (hex_digit (n mod 16)) EmptyString)
  else String c EmptyString.

Fixpoint json_quote_body (s : string) : string :=
  match s with
  | EmptyString => EmptyString
  | String c rest => json_escape c +:+ json_quote_body rest
  end.

Definition json_quote (s : string) : string :=
  double_quote +:+ json_quote_body s +:+ double_quote.

Section Marshal.
(** The encoder of string values. *)
Variable quote : string → string.

Definition encode_value (v : go_value) : string :=
  match v with
  | GoString s => quote s
  | GoText s => quote s
  | GoBool true => "true"
  | GoBool false => "false"
  end.

Definition encode_field (f : struct_field) : option string :=
  k ← json_key f; Some (quote k +:+ ":" +:+ encode_value (field_value f)).

Fixpoint join (sep : string) (l : list string) : string :=
  match l with
  | [] => EmptyString
  | [s] => s
  | s :: l' => s +:+ sep +:+ join sep l'
  end.

Definition encode_struct (fs : list struct_field) : string :=
  "{" +:+ join "," (omap encode_field fs) +:+ "}".

(** [json.Marshal] of a [User], with [quote] for the string values. *)
Definition MarshalWith (u : User) : string := encode_struct (User_fields u).
End Marshal.

Definition Marshal (u : User) : string := MarshalWith json_quote u.

(** Two users with the same id and name; the second is an administrator
    with another password. *)
Definition alice : User :=
  {| ID := [x11; x22; x33; x44; x55; x66; x77; x88;
            x99; xaa; xbb; xcc; xdd; xee; xff; x00];
     Name := "alice"; Password := "hunter2"; IsAdmin := false |}.

Definition alice_admin : User :=
  {| ID := ID alice; Name := Name alice;
     Password := "correct horse"; IsAdmin := true |}.

(** * The defaults of the grader command ([cmd/grader/cmd/root.go]) *)

(** ** Text *)

Definition newline : string := String "010"%char EmptyString.

Definition is_space (c : ascii) : bool :=
  bool_decide (c = " "%char) || bool_decide (c = "009"%char)
  || bool_decide (c = "013"%char).

Fixpoint trim_left (s : string) : string :=
  match s with
  | String c rest => if is_space c then trim_left rest else s
  | EmptyString => EmptyString
  end.

Fixpoint trim_right (s : string) : string :=
  match s with
  | EmptyString => EmptyString
  | String c rest =>
      match trim_right rest with
      | EmptyString => if is_space c then EmptyString else String c EmptyString
      | rest' => String c rest'
      end
  end.

Definition trim (s : string) : string := trim_right (trim_left s).

(** [split_at c s]: the text before the first [c] of [s] and the text after
    it. *)
Fixpoint split_at (c : ascii) (s : string) : option (string * string) :=
  match s with
  | EmptyString => None
  | String d rest =>
      if decide (d = c) then Some (EmptyString, rest)
      else '(a, b) ← split_at c rest; Some (String d a, b)
  end.

Fixpoint lines (s : string) : list string :=
  match s with
  | EmptyString => [EmptyString]
  | String c rest =>
      if decide (c = "010"%char) then EmptyString :: lines rest
      else match lines rest with
           | l :: ls => String c l :: ls
           | [] => [String c EmptyString]
           end
  end.

Definition digit (c : ascii) : option Z :=
  let n := Z.of_N (N_of_ascii c) in
  if decide (48 ≤ n ≤ 57)%Z then Some (n - 48)%Z else None.

Fixpoint digits (acc : Z) (s : string) : option Z :=
  match s with
  | EmptyString => Some acc
  | String c rest => d ← digit c; digits (10 * acc + d) rest
  end.

Definition decimal (s : string) : option Z :=
  match s with
  | EmptyString => None
  | String "-" rest =>
      if decide (rest = EmptyString) then None else Z.opp <$> digits 0 rest
  | _ => digits 0 s
  end.

Definition map_chars (f : ascii → ascii) : string → string :=
  fix go s :=
    match s with
    | EmptyString => EmptyString
    | String c rest => String (f c) (go rest)
    end.

Definition upper (c : ascii) : ascii :=
  let n := N_of_ascii c in
  if decide (97 ≤ n ≤ 122)%N then ascii_of_N (n - 32) else c.

Definition lower (c : ascii) : ascii :=
  let n := N_of_ascii c in
  if decide (65 ≤ n ≤ 90)%N then ascii_of_N (n + 32) else c.

(** [strings.ToUpper], [strings.ToLower], and a replacer of one character
    by another, on ASCII text. *)
Definition ToUpper : string → string := map_chars upper.
Definition ToLower : string → string := map_chars lower.
Definition Replace (old new : ascii) : string → string :=
  map_chars (λ c, if decide (c = old) then new else c).

(** ** Settings *)

Inductive setting : Type :=
| SString (s : string)
| SInt (n : Z)
| SBool (b : bool).

(** The TOML that [initConfig] reads: tables, and keys with a basic string
    (without escapes) or a decimal integer for value; keys are kept in
    lower case under the path [table.key], as viper does. *)
Definition toml_value (s : string) : option setting :=
  match s with
  | String "034" rest =>
      '(body, tail) ← split_at "034" rest;
      if decide (tail = EmptyString) then
        match split_at "092" body with
        | None => Some (SString body)
        | Some _ => None
        end
      else None
  | _ => SInt <$> decimal s
  end.

Definition toml_table (s : string) : option string :=
  match s with
  | String "[" rest =>
      '(name, tail) ← split_at "]" rest;
      if decide (tail = EmptyString) then Some (trim name) else None
  | _ => None
  end.

Definition qualify (table key : string) : string :=
  ToLower (if decide (table = EmptyString) then key else table +:+ "." +:+ key).

Fixpoint toml_lines (table : string) (ls : list string)
    (acc : gmap string setting) : option (gmap string setting) :=
  match ls with
  | [] => Some acc
  | l :: ls' =>
      match trim l with
      | EmptyString => toml_lines table ls' acc
      | String "#" _ => toml_lines table ls' acc
      | String "[" _ as h => t ← toml_table h; toml_lines t ls' acc
      | kv =>
          '(k, v) ← split_at "=" kv;
          x ← toml_value (trim v);
          toml_lines table ls' (<[qualify table (trim k) := x]> acc)
      end
  end.

Definition toml (text : string) : option (gmap string setting) :=
  toml_lines EmptyString (lines text) ∅.

(** ** Flags *)

(** A [pflag.Flag] of type bool: its name, the text of its value, and
    whether the command line has set it. *)
Record Flag : Type := {
  flag_name : string;
  flag_value : string;
  flag_changed : bool
}.

(** [BoolP name _ false _], after the command line [given] (flag name to
    value text) has been parsed. *)
Definition BoolP (given : gmap string string) (name : string) : Flag :=
  match given !! name with
  | Some text => {| flag_name := name; flag_value := text; flag_changed := true |}
  | None => {| flag_name := name; flag_value := "false"; flag_changed := false |}
  end.

(** [rootCmd.PersistentFlags()], as set up by [init]. *)
Definition PersistentFlags (given : gmap string string) : gmap string Flag :=
  {[ "verbose" := BoolP given "verbose"; "pretty" := BoolP given "pretty" ]}.

(** [cast.ToBool] on the text of a flag. *)
Definition ToBool (text : string) : bool :=
  bool_decide (text ∈ ["1"; "t"; "T"; "TRUE"; "true"; "True"]).

(** ** Viper *)

Module viper.

Record Viper : Type := {
  configType : string;
  config : gmap string setting;
  envKeyReplacer : option (ascii * ascii);
  automaticEnvApplied : bool;
  pflags : gmap string Flag
}.

Definition New : Viper :=
  {| configType := EmptyString; config := ∅; envKeyReplacer := None;
     automaticEnvApplied := false; pflags := ∅ |}.

Definition SetConfigType (t : string) (v : Viper) : Viper :=
  {| configType := t; config := config v;
     envKeyReplacer := envKeyReplacer v;
     automaticEnvApplied := automaticEnvApplied v; pflags := pflags v |}.

(** [viper.ReadConfig]; only TOML is modelled. *)
Definition ReadConfig (text : string) (v : Viper) : option Viper :=
  if decide (configType v = "toml") then
    c ← toml text;
    Some {| configType := configType v; config := c;
            envKeyReplacer := envKeyReplacer v;
            automaticEnvApplied := automaticEnvApplied v;
            pflags := pflags v |}
  else None.

Definition SetEnvKeyReplacer (old new : ascii) (v : Viper) : Viper :=
  {| configType := configType v; config := config v;
     envKeyReplacer := Some (old, new);
     automaticEnvApplied := automaticEnvApplied v; pflags := pflags v |}.

Definition AutomaticEnv (v : Viper) : Viper :=
  {| configType := configType v; config := config v;
     envKeyReplacer := envKeyReplacer v;
     automaticEnvApplied := true; pflags := pflags v |}.

(** [viper.BindPFlag]; it fails on a nil flag. *)
Definition BindPFlag (key : string) (f : option Flag) (v : Viper)
  : option Viper :=
  f ← f;
  Some {| configType := configType v; config := config v;
          envKeyReplacer := envKeyReplacer v;
          automaticEnvApplied := automaticEnvApplied v;
          pflags := <[ToLower key := f]> (pflags v) |}.

(** The name of the environment variable that stands for a key. *)
Definition env_name (v : Viper) (key : string) : string :=
  let k := ToUpper key in
  match envKeyReplacer v with
  | Some (old, new) => Replace old new k
  | None => k
  end.

(** [viper.Get]: a flag set on the command line wins, then a non-empty
    environment variable (with [AutomaticEnv]), then the configuration that
    was read, then the default of a bound flag. *)
Definition Get (env : gmap string string) (v : Viper) (key : string)
  : option setting :=
  let key := ToLower key in
  let flag := pflags v !! key in
  let from_flag :=
    match flag with
    | Some f =>
        if flag_changed f then Some (SBool (ToBool (flag_value f))) else None
    | None => None
    end in
  let from_env :=
    if automaticEnvApplied v then
      match env !! env_name v key with
      | Some text =>
          if decide (text = EmptyString) then None else Some (SString text)
      | None => None
      end
    else None in
  let from_default := (λ f, SBool (ToBool (flag_value f))) <$> flag in
  from_flag ∪ from_env ∪ (config v !! key) ∪ from_default.

End viper.

(** ** [initConfig] *)

Definition defaultConfig : string :=
  newline +:+
  "[server]" +:+ newline +:+
  "listen=" +:+ double_quote +:+ "localhost:8090" +:+ double_quote +:+ newline +:+
  "timeout_read=" +:+ double_quote +:+ "5s" +:+ double_quote +:+ newline +:+
  "timeout_write=" +:+ double_quote +:+ "5s" +:+ double_quote +:+ newline +:+
  "timeout_idle=" +:+ double_quote +:+ "1m" +:+ double_quote +:+ newline +:+
  "[log]" +:+ newline +:+
  "verbose=0" +:+ newline +:+
  "pretty=0" +:+ newline.

(** [initConfig] up to the call of [viper.Unmarshal], which reads the
    settings with [Get]; [None] stands for the exit of [logger.CheckErr]. *)
Definition initConfig (flags : gmap string Flag) : option viper.Viper :=
  let v := viper.SetConfigType "toml" viper.New in
  v ← viper.ReadConfig defaultConfig v;
  let v := viper.AutomaticEnv (viper.SetEnvKeyReplacer "." "_" v) in
  v ← viper.BindPFlag "log.verbose" (flags !! "verbose") v;
  viper.BindPFlag "log.pretty" (flags !! "pretty") v.






(** * Further observations of the application *)

(** What a run leaves behind: the value [main] has returned, the events, the
    number of goroutines started, and the channel table. *)
Record remains (R : Type) : Type := Remains {
  main_value : option R;
  happened : list event;
  goroutines : nat;
  channels : list bool
}.

Arguments Remains {R} main_value happened goroutines channels.
Arguments main_value {R} r.
Arguments happened {R} r.
Arguments goroutines {R} r.
Arguments channels {R} r.

Definition survey {R : Type} (m : machine R) : remains R :=
  Remains (result m) (trace m) (length (gos m)) (chans m).

(** More event classes: a call of [Stop] on any resource, a receive on any
    channel, the start of a goroutine. *)
Definition stops_something (e : event) : bool :=
  match e with
  | EvCall (Stop _) => true
  | _ => false
  end.

Definition receives (e : event) : bool :=
  match e with
  | EvRecv _ => true
  | _ => false
  end.

Definition spawns (e : event) : bool :=
  match e with
  | EvGo => true
  | _ => false
  end.

(** The [App] that [New] builds around the first channel made. *)
Definition the_app (cfg : Config) : App :=
  {| config := cfg; logger := Logger; stop := 0; queue := Queue;
     server := Server; workers := Workers; s3 := S3 |}.

(** Worlds in which the first call to fail is the construction of the
    assessment repository, respectively of the submission repository; what
    the later calls would answer is left open. *)
Definition assessments_fail (e : error) (o9 o10 o11 o12 : option error)
    (procs : Z) : world :=
  World None None None None None None None (Some e) o9 o10 o11 o12 procs.

Definition submissions_fail (e : error) (o10 o11 o12 : option error)
    (procs : Z) : world :=
  World None None None None None None None None (Some e) o10 o11 o12 procs.

(** The schedule that lets [main] finish and then the goroutine of [New]:
    whatever has happened before, it brings the service to rest. *)
Definition drain : list nat := replicate 60 0 ++ replicate 3 1.

(** The check behind the statement that the shutdown completes. *)
Definition stopped_cleanly (v : view (option error)) : bool :=
  at_rest v && negb (panicked v) &&
  match returned v with
  | None => false
  | Some None =>
      bool_decide (count (invokes (Stop Queue)) (events v) = 1) &&
      bool_decide (count (returns (Stop Queue)) (events v) = 1)
  | Some (Some _) => true
  end.

(** * Further definitions for the commands *)

(** The environment variable that stands for a key once [initConfig] has
    run: the key in upper case, with dots replaced by underscores. *)
Definition variable_of (key : string) : string :=
  Replace "." "_" (ToUpper (ToLower key)).

(** The keys of the built-in document of the grader command. *)
Definition setting_keys : list string :=
  ["server.listen"; "server.timeout_read"; "server.timeout_write";
   "server.timeout_idle"; "log.verbose"; "log.pretty"].

(** Viper after [initConfig]: the document [c] read, the replacer and
    [AutomaticEnv] set, and the two flags bound. *)
Definition configured (c : gmap string setting)
    (given : gmap string string) : viper.Viper :=
  {| viper.configType := "toml"; viper.config := c;
     viper.envKeyReplacer := Some ("."%char, "_"%char);
     viper.automaticEnvApplied := true;
     viper.pflags :=
       <["log.pretty" := BoolP given "pretty"]>
         (<["log.verbose" := BoolP given "verbose"]> ∅) |}.

(** ** [initDotEnv] *)

#[global] Instance error_eq_dec : EqDecision error.
Proof. solve_decision. Defined.

(** [fs.ErrNotExist]. *)
Definition fs_ErrNotExist : error := Cause "file does not exist".

(** [errors.Is]: [target] is [err] or one of the errors [err] wraps. *)
Fixpoint errors_Is (err target : error) : bool :=
  bool_decide (err = target) ||
  match err with
  | Errorf _ cause => errors_Is cause target
  | Cause _ => false
  end.

(** An error and the errors it wraps, outermost first. *)
Fixpoint chain (err : error) : list error :=
  err :: match err with
         | Errorf _ cause => chain cause
         | Cause _ => []
         end.

(** The [.env] file of the working directory, as [godotenv] finds it:
    missing, unreadable (it cannot be opened or parsed, with the error), or
    parsed into variables. *)
Inductive dotenv_file : Type :=
| Missing
| Unreadable (err : error)
| Parsed (vars : gmap string string).

(** [godotenv.Load()]: the variables of the file are added to the
    environment, except those the environment already has. *)
Definition godotenv_Load (file : dotenv_file) (env : gmap string string)
  : gmap string string * option error :=
  match file with
  | Missing => (env, Some (Errorf "open .env: " fs_ErrNotExist))
  | Unreadable err => (env, Some err)
  | Parsed vars => (env ∪ vars, None)
  end.

(** [initDotEnv]: the environment it leaves, and the error it hands to
    [logger.CheckErr], if any. *)
Definition initDotEnv (file : dotenv_file) (env : gmap string string)
  : gmap string string * option error :=
  let '(env', err) := godotenv_Load file env in
  match err with
  | Some e =>
      if negb (errors_Is e fs_ErrNotExist)
      then (env', Some (Errorf ".env load: " e))
      else (env', None)
  | None => (env', None)
  end.

(** The initializers that [init] registers with [cobra.OnInitialize], run
    in the order of registration: [initDotEnv], then [initConfig];
    [initLogger] follows and only reads the configuration.  The result is
    the environment and the viper that the command then runs with; [None]
    stands for the exit of [logger.CheckErr]. *)
Definition initialize (file : dotenv_file) (env given : gmap string string)
  : option (gmap string string * viper.Viper) :=
  let '(env', fatal) := initDotEnv file env in
  match fatal with
  | Some _ => None
  | None => v ← initConfig (PersistentFlags given); Some (env', v)
  end.

(** ** The queue command *)




(** * Reading an identity back *)

(** The value of a hexadecimal digit in lower case. *)
Definition unhex_digit (c : ascii) : option N :=
  let n := N_of_ascii c in
  if decide (48 ≤ n ≤ 57)%N then Some (n - 48)%N
  else if decide (97 ≤ n ≤ 102)%N then Some (n - 87)%N
  else None.

(** The bytes that a text of hexadecimal digit pairs stands for. *)
Fixpoint unhex (s : string) : option (list byte) :=
  match s with
  | EmptyString => Some []
  | String a (String b rest) =>
      h ← unhex_digit a; l ← unhex_digit b;
      x ← Byte.of_N (16 * h + l); (x ::.) <$> unhex rest
  | String _ EmptyString => None
  end.

Fixpoint without_dashes (s : string) : string :=
  match s with
  | EmptyString => EmptyString
  | String c rest =>
      if decide (c = "-"%char) then without_dashes rest
      else String c (without_dashes rest)
  end.

(** The bytes of an identity: its digits, dashes apart. *)
Definition identity_bytes (s : string) : option UUID :=
  unhex (without_dashes s).

(** * The routes that [New] registers *)

(** The middlewares and the handlers that [New] hands to the router. *)
Inductive middleware : Type :=
| middleware_Recoverer
| mw_Log
| session_ContextMiddleware
| auth_ContextMiddleware
| auth_AuthMiddleware.

Inductive endpoint : Type :=
| sh_Create
| uh_Login
| uh_Register
| uh_Logout
| uh_Default
| ah_AssessmentList
| ah_AssessmentCreate
| static_FileServer.

Inductive method : Type := GET | POST | ANY.

#[global] Instance middleware_eq_dec : EqDecision middleware.
Proof. solve_decision. Defined.
#[global] Instance endpoint_eq_dec : EqDecision endpoint.
Proof. solve_decision. Defined.
#[global] Instance method_eq_dec : EqDecision method.
Proof. solve_decision. Defined.

#[local] Unset Elimination Schemes.

(** The calls on a [chi.Router]; the body of [Route] is the function it is
    given, as the calls that function makes on the sub-router. *)
Inductive stmt : Type :=
| Use (m : middleware)
| Get (pattern : string) (h : endpoint)
| Post (pattern : string) (h : endpoint)
| Handle (pattern : string) (h : endpoint)
| Route (pattern : string) (body : list stmt).

#[local] Set Elimination Schemes.

(** Lines 99 to 153 of [New]. *)
Definition New_router : list stmt :=
  [ Use middleware_Recoverer;
    Use mw_Log;
    Route "/app"
      [ Use session_ContextMiddleware;
        Use auth_ContextMiddleware;
        Route "/submit"
          [ Use auth_AuthMiddleware;
            Get "/{id}" sh_Create;
            Post "/{id}" sh_Create ];
        Route "/user"
          [ Get "/login" uh_Login;
            Post "/login" uh_Login;
            Get "/register" uh_Register;
            Post "/register" uh_Register;
            Get "/logout" uh_Logout ];
        Route "/admin"
          [ Use auth_AuthMiddleware;
            Get "/assessments" ah_AssessmentList;
            Get "/assessments/create" ah_AssessmentCreate;
            Post "/assessments/create" ah_AssessmentCreate ];
        Get "/" uh_Default ];
    Handle "/static/*" static_FileServer ].

(** A [chi.Mux]: its middleware stack and its routes, each to a handler or
    to a mounted sub-router. *)
Inductive Mux : Type :=
| MkMux (stack : list middleware) (routes : list (method * string * target))
with target : Type :=
| Handler (h : endpoint)
| Mounted (sub : Mux).

Definition stack_of (mx : Mux) : list middleware :=
  match mx with MkMux s _ => s end.

Definition routes_of (mx : Mux) : list (method * string * target) :=
  match mx with MkMux _ r => r end.

Definition NewRouter : Mux := MkMux [] [].

Definition begins_with_slash (pattern : string) : bool :=
  match pattern with
  | String "/" _ => true
  | _ => false
  end.

(** Registration of a route.  The router panics ([None]) on a pattern that
    does not begin with a slash. *)
Definition register (m : method) (pattern : string) (t : target) (mx : Mux)
  : option Mux :=
  if begins_with_slash pattern
  then Some (MkMux (stack_of mx) (routes_of mx ++ [(m, pattern, t)]))
  else None.

Definition is_mounted (t : target) : bool :=
  match t with Mounted _ => true | Handler _ => false end.

(** [Mux.Mount]: it panics when something is mounted on the pattern
    already. *)
Definition Mount (pattern : string) (sub : Mux) (mx : Mux) : option Mux :=
  if bool_decide (Exists (λ r, r.1.2 = pattern ∧ is_mounted r.2 = true)
                    (routes_of mx))
  then None
  else register ANY pattern (Mounted sub) mx.

(** One call on a router, and a sequence of calls.  [Mux.Use] panics once
    the router has a route: "all middlewares must be defined before routes
    on a mux". *)
Fixpoint exec (s : stmt) (mx : Mux) : option Mux :=
  match s with
  | Use m =>
      match routes_of mx with
      | [] => Some (MkMux (stack_of mx ++ [m]) [])
      | _ :: _ => None
      end
  | Get pattern h => register GET pattern (Handler h) mx
  | Post pattern h => register POST pattern (Handler h) mx
  | Handle pattern h => register ANY pattern (Handler h) mx
  | Route pattern body =>
      sub ← (fix run (ss : list stmt) (mx : Mux) : option Mux :=
               match ss with
               | [] => Some mx
               | s :: ss' => mx' ← exec s mx; run ss' mx'
               end) body NewRouter;
      Mount pattern sub mx
  end.

Fixpoint exec_all (ss : list stmt) (mx : Mux) : option Mux :=
  match ss with
  | [] => Some mx
  | s :: ss' => mx' ← exec s mx; exec_all ss' mx'
  end.

(** A route as a request meets it: the method, the whole pattern, the
    middlewares in the order they run, and the handler. *)
Record entry : Type := Entry {
  entry_method : method;
  entry_pattern : string;
  entry_chain : list middleware;
  entry_handler : endpoint
}.

(** The routes of a router, those of mounted sub-routers included: the
    pattern of a mount is put before the patterns of the sub-router, and
    the stack of a router runs before the stacks of the routers mounted on
    it. *)
Fixpoint table (prefix : string) (outer : list middleware) (mx : Mux)
  : list entry :=
  match mx with
  | MkMux stack routes =>
      (fix go (rs : list (method * string * target)) : list entry :=
         match rs with
         | [] => []
         | (m, pattern, Handler h) :: rs' =>
             Entry m (prefix +:+ pattern) (outer ++ stack) h :: go rs'
         | (_, pattern, Mounted sub) :: rs' =>
             table (prefix +:+ pattern) (outer ++ stack) sub ++ go rs'
         end) routes
  end.

(** The routes of the router that [New] builds; none if the router
    panics. *)
Definition New_routes : option (list entry) :=
  table EmptyString [] <$> exec_all New_router NewRouter.

(** The handlers of submissions and of administration. *)
Definition guarded (h : endpoint) : bool :=
  bool_decide (h ∈ [sh_Create; ah_AssessmentList; ah_AssessmentCreate]).

(** The middlewares in front of a handler, as the theorems state them. *)
Definition chain_for (h : endpoint) : list middleware :=
  if decide (h = static_FileServer) then [middleware_Recoverer; mw_Log]
  else
    [middleware_Recoverer; mw_Log; session_ContextMiddleware;
     auth_ContextMiddleware]
    ++ (if guarded h then [auth_AuthMiddleware] else []).

Definition all_endpoints : list endpoint :=
  [sh_Create; uh_Login; uh_Register; uh_Logout; uh_Default;
   ah_AssessmentList; ah_AssessmentCreate; static_FileServer].

(** * The migration of the users table
    ([migrations/20211108105449_create_users_table.sql]) *)

Inductive sql_type : Type := UUID_t | TIMESTAMPTZ_t | TEXT_t | BOOLEAN_t.

Inductive sql_default : Type :=
| uuid_generate_v4
| NOW
| literal_false.

Record column : Type := {
  column_name : string;
  column_type : sql_type;
  column_default : option sql_default;
  column_not_null : bool;
  column_unique : bool
}.

Record table_def : Type := {
  columns : list column;
  primary_key : list string
}.

#[global] Instance sql_type_eq_dec : EqDecision sql_type.
Proof. solve_decision. Defined.
#[global] Instance sql_default_eq_dec : EqDecision sql_default.
Proof. solve_decision. Defined.
#[global] Instance column_eq_dec : EqDecision column.
Proof. solve_decision. Defined.
#[global] Instance table_def_eq_dec : EqDecision table_def.
Proof. solve_decision. Defined.

(** What a database holds of interest to the migration: the extensions
    installed and the tables by name. *)
Record catalog : Type := {
  extensions : gset string;
  tables : gmap string table_def
}.

Inductive statement : Type :=
| CREATE_EXTENSION_IF_NOT_EXISTS (name : string)
| CREATE_TABLE_IF_NOT_EXISTS (name : string) (t : table_def)
| DROP_TABLE_IF_EXISTS (name : string).

Definition users_table : table_def :=
  {| columns :=
       [ {| column_name := "id"; column_type := UUID_t;
            column_default := Some uuid_generate_v4;
            column_not_null := true; column_unique := true |};
         {| column_name := "created_at"; column_type := TIMESTAMPTZ_t;
            column_default := Some NOW;
            column_not_null := true; column_unique := false |};
         {| column_name := "name"; column_type := TEXT_t;
            column_default := None;
            column_not_null := true; column_unique := true |};
         {| column_name := "password"; column_type := TEXT_t;
            column_default := None;
            column_not_null := true; column_unique := false |};
         {| column_name := "is_admin"; column_type := BOOLEAN_t;
            column_default := Some literal_false;
            column_not_null := true; column_unique := false |} ];
     primary_key := ["id"] |}.

(** The section [+goose Up] and the section [+goose Down]. *)
Definition Up : list statement :=
  [ CREATE_EXTENSION_IF_NOT_EXISTS "uuid-ossp";
    CREATE_EXTENSION_IF_NOT_EXISTS "pgcrypto";
    CREATE_TABLE_IF_NOT_EXISTS "users" users_table ].


(** One statement on a catalog: an extension or a table that exists is
    left as it is, and dropping a table that does not exist does
    nothing. *)
Definition execute (s : statement) (c : catalog) : catalog :=
  match s with
  | CREATE_EXTENSION_IF_NOT_EXISTS name =>
      {| extensions := {[ name ]} ∪ extensions c; tables := tables c |}
  | CREATE_TABLE_IF_NOT_EXISTS name t =>
      match tables c !! name with
      | Some _ => c
      | None => {| extensions := extensions c;
                   tables := <[name := t]> (tables c) |}
      end
  | DROP_TABLE_IF_EXISTS name =>
      {| extensions := extensions c; tables := delete name (tables c) |}
  end.

Definition migrate (ss : list statement) (c : catalog) : catalog :=
  foldl (λ c s, execute s c) c ss.

(** * Properties *)

Local Open Scope nat_scope.

(** ** Every run is found by exploration *)

Section Exploration.
Context {R : Type} (w : world).
Implicit Types (m : machine R) (sched : list nat).

Lemma step_succs tid m m' : step w tid m = Some m' → m' ∈ succs w m.
Proof.
  intros Hstep. unfold succs. apply list_elem_of_omap.
  exists tid. split; [|done].
  apply elem_of_seq. split; [lia|]. simpl.
  destruct tid as [|i]; [lia|].
  unfold step in Hstep. destruct (crashed m); [done|].
  destruct (gos m !! i) eqn:Hi; [|done].
  apply lookup_lt_Some in Hi. lia.
Qed.

Lemma explore_self n m : m ∈ explore w n m.
Proof. destruct n; left. Qed.

Lemma frontier_succ n m m' :
  frontier w (S n) m = [] → m' ∈ succs w m → frontier w n m' = [].
Proof.
  simpl. intros Hnil Hin.
  destruct (frontier w n m') as [|x l] eqn:Hf; [done|].
  assert (x ∈ succs w m ≫= frontier w n) as Hx.
  { apply list_elem_of_bind. exists m'. rewrite Hf. split; [left|done]. }
  rewrite Hnil in Hx. by apply elem_of_nil in Hx.
Qed.

(** If no state lies [n] moves away, every schedule ends in one of the
    states explored to depth [n]. *)
Lemma run_explore sched : ∀ n m,
  frontier w n m = [] → run w sched m ∈ explore w n m.
Proof.
  induction sched as [|tid sched IH]; intros n m Hnil; simpl.
  - apply explore_self.
  - destruct (step w tid m) as [m'|] eqn:Hstep; simpl; [|by apply IH].
    apply step_succs in Hstep.
    destruct n as [|n]; [done|].
    simpl. right. apply list_elem_of_bind. exists m'. split; [|done].
    apply IH. by eapply frontier_succ.
Qed.

Lemma every_run (P : view R → Prop) n m :
  frontier w n m = [] →
  Forall P (observe w <$> explore w n m) →
  ∀ sched, P (observe w (run w sched m)).
Proof.
  intros Hnil Hall sched. rewrite Forall_fmap, Forall_forall in Hall.
  apply Hall. by apply run_explore.
Qed.
End Exploration.

(** ** The trace checkers decide what they are named after *)

Lemma precedesb_sound a b t : precedesb a b t = true → precedes a b t.
Proof.
  induction t as [|e t IH]; intros Hb i x Hi Hx; [done|].
  simpl in Hb. destruct (b e) eqn:Hbe; [done|].
  destruct i as [|i]; simpl in Hi.
  { injection Hi as ->. congruence. }
  destruct (a e) eqn:Hae.
  - exists 0, e. split_and!; [lia|done|done].
  - destruct (IH Hb i x Hi Hx) as (j & e' & Hj & Hl & Ha).
    exists (S j), e'. split_and!; [lia|done|done].
Qed.

Lemma final_failureb_sound w t :
  final_failureb w t = true → final_failure w t.
Proof.
  induction t as [|e t IH]; intros Hb t1 c t2 Heq Hfail.
  { by destruct t1. }
  destruct t1 as [|e1 t1]; injection Heq as -> ->.
  - simpl in Hb. destruct Hfail as [x Hx]. rewrite Hx in Hb. by destruct t2.
  - assert (final_failureb w (t1 ++ EvRet c :: t2) = true) as Hb'.
    { simpl in Hb. destruct e1 as [|c1| | | | | |]; try done.
      destruct (answer w c1); [|done]. by destruct t1. }
    by apply (IH Hb' t1 c t2).
Qed.

(** ** Start-up *)

(** Splits a statement about every world into the thirteen ways a start-up
    can go: one of the twelve fallible calls is the first to fail, or none
    does. *)
Ltac each_world w tac :=
  destruct w as [o1 o2 o3 o4 o5 o6 o7 o8 o9 o10 o11 o12 procs];
  destruct o1; [tac|]; destruct o2; [tac|]; destruct o3; [tac|];
  destruct o4; [tac|]; destruct o5; [tac|]; destruct o6; [tac|];
  destruct o7; [tac|]; destruct o8; [tac|]; destruct o9; [tac|];
  destruct o10; [tac|]; destruct o11; [tac|]; destruct o12; [tac|]; tac.

(** Proves [P (observe w (run w sched m))] from the states within [n] moves
    of [m], each settled by [tac]. *)
Ltac explored n tac :=
  idtac;
  match goal with
  | |- ?P (observe ?w (run ?w ?sched ?m)) =>
      revert sched; apply (every_run w P n m);
      [ lazy -[int_mul]; reflexivity
      | let l := eval lazy -[int_mul] in (observe w <$> explore w n m) in
        change (Forall P l);
        repeat (apply List.Forall_cons; [tac|]); apply List.Forall_nil ]
  end.

Ltac look P :=
  unfold P; cbn [events returned panicked at_rest GOMAXPROCS].

(** C3. Start-up runs its steps in the order of the source: the database is
    opened, pinged and migrated before the queue connection is opened, and
    the queue is opened before the Worker Pool is started; once a step has
    failed, nothing further happens. *)
Theorem startup_order (cfg : Config) (w : world) (sched : list nat) :
  let t := trace (run w sched (boot (New cfg))) in
  t `prefix_of` New_events (GOMAXPROCS w) ∧
  final_failure w t ∧
  precedes (returns sql_Open) (invokes db_Ping) t ∧
  precedes (returns db_Ping) (invokes migrate_Up) t ∧
  precedes (returns migrate_Up) (invokes amqp_New) t ∧
  precedes (returns amqp_New) (starts Workers) t.
Proof.
  pose (P := λ (w : world) (v : view (option App * option error)),
    events v `prefix_of` New_events (GOMAXPROCS w) ∧
    final_failure w (events v) ∧
    precedes (returns sql_Open) (invokes db_Ping) (events v) ∧
    precedes (returns db_Ping) (invokes migrate_Up) (events v) ∧
    precedes (returns migrate_Up) (invokes amqp_New) (events v) ∧
    precedes (returns amqp_New) (starts Workers) (events v)).
  change (P w (observe w (run w sched (boot (New cfg))))).
  each_world w ltac:(explored 60 ltac:(
    look P; split_and!;
    [ eexists; reflexivity
    | apply final_failureb_sound; reflexivity
    | apply precedesb_sound; reflexivity.. ])).
Qed.

Lemma precedesb_complete a b t : precedes a b t → precedesb a b t = true.
Proof.
  induction t as [|e t IH]; intros Hp; [done|]. simpl.
  destruct (b e) eqn:Hbe.
  { destruct (Hp 0 e eq_refl Hbe) as (j & _ & Hj & _). lia. }
  destruct (a e) eqn:Hae; [done|].
  apply IH. intros i x Hi Hx.
  destruct (Hp (S i) x Hi Hx) as (j & e' & Hj & Hl & Ha).
  destruct j as [|j]; simpl in Hl.
  { injection Hl as <-. congruence. }
  exists j, e'. split_and!; [lia|done|done].
Qed.

Lemma int_mul_double (n : Z) : (0 < n < 2 ^ 31)%Z → int_mul n 2 = (2 * n)%Z.
Proof.
  intros Hn. unfold int_mul, int_wrap, int_bits.
  rewrite Z.mod_small; lia.
Qed.

(** Tries the fallible calls in turn as the one that failed. *)
Ltac blame tac :=
  first
    [ exists sql_Open; tac | exists db_Ping; tac | exists migrate_Up; tac
    | exists amqp_New; tac | exists token_NewJWT; tac | exists aws_NewS3; tac
    | exists postgres_NewUserRepository; tac
    | exists postgres_NewAssessmentRepository; tac
    | exists postgres_NewSubmissionRepository; tac
    | exists layout_NewLayout; tac | exists handler_NewSubmitHandler; tac
    | exists httpserver_New; tac ].

(** C8. [New] is all-or-nothing.  It returns (fifty-one moves of its own are
    always enough), whatever the schedule it returns that one value, and the
    value is either an [App] with a nil error, in a world where no call
    fails, or a nil [App] with an error that wraps the error of a call that
    was made and failed. *)
Theorem New_all_or_nothing (cfg : Config) (w : world) :
  ∃ r : option App * option error,
    result (run w (replicate 51 0) (boot (New cfg))) = Some r ∧
    (∀ sched,
       result (run w sched (boot (New cfg))) = None ∨
       result (run w sched (boot (New cfg))) = Some r) ∧
    ((∃ a, r = (Some a, None) ∧ ∀ c, answer w c = None) ∨
     (∃ c p e,
        r = (None, Some (Errorf p e)) ∧ Unwrap (Errorf p e) = Some e ∧
        answer w c = Some e ∧
        EvRet c ∈ trace (run w (replicate 51 0) (boot (New cfg))))).
Proof.
  pose (P := λ (r : option App * option error)
               (v : view (option App * option error)),
    returned v = None ∨ returned v = Some r).
  each_world w ltac:(
    eexists; split_and!;
    [ lazy -[int_mul]; reflexivity
    | intros sched;
      match goal with
      | |- result (run ?w' _ _) = None ∨ _ = Some ?r =>
          change (P r (observe w' (run w' sched (boot (New cfg)))))
      end;
      explored 60 ltac:(look P; first [by left | by right])
    | first
        [ left; eexists; split; [reflexivity | by intros []]
        | right; blame ltac:(
            eexists _, _; split_and!;
            [ reflexivity | reflexivity | reflexivity
            | lazy -[int_mul]; apply list_elem_of_In, in_rev; left;
              reflexivity ]) ] ]).
Qed.

Lemma New_all_or_nothing_witness :
  ∃ r : option App * option error,
    result (run (fair_world 4) (replicate 51 0) (boot (New demo_config)))
      = Some r ∧
    (∀ sched,
       result (run (fair_world 4) sched (boot (New demo_config))) = None ∨
       result (run (fair_world 4) sched (boot (New demo_config))) = Some r) ∧
    ((∃ a, r = (Some a, None) ∧ ∀ c, answer (fair_world 4) c = None) ∨
     (∃ c p e,
        r = (None, Some (Errorf p e)) ∧ Unwrap (Errorf p e) = Some e ∧
        answer (fair_world 4) c = Some e ∧
        EvRet c ∈ trace (run (fair_world 4) (replicate 51 0)
                           (boot (New demo_config))))).
Proof. exact (New_all_or_nothing demo_config (fair_world 4)). Defined.

(** ** The Worker Pool in the life of the service *)

Lemma pool_calls_New (cfg : Config) (w : world) (sched : list nat) :
  ∀ a, result (run w sched (boot (New cfg))) = Some (Some a, None) →
    pool_calls (trace (run w sched (boot (New cfg))))
    = [workerpool_New; Start Workers (int_mul (GOMAXPROCS w) 2)].
Proof.
  pose (P := λ (w : world) (v : view (option App * option error)),
    ∀ a, returned v = Some (Some a, None) →
      pool_calls (events v)
      = [workerpool_New; Start Workers (int_mul (GOMAXPROCS w) 2)]).
  change (P w (observe w (run w sched (boot (New cfg))))).
  each_world w ltac:(explored 60 ltac:(
    look P; intros a Ha; first [discriminate Ha | reflexivity])).
Qed.

Lemma pool_calls_service (cfg : Config) (w : world) (sched : list nat) :
  pool_calls (trace (run w sched (boot (service cfg 1))))
  `prefix_of`
  [workerpool_New; Start Workers (int_mul (GOMAXPROCS w) 2); Stop Workers].
Proof.
  pose (P := λ (w : world) (v : view (option error)),
    pool_calls (events v) `prefix_of`
    [workerpool_New; Start Workers (int_mul (GOMAXPROCS w) 2);
     Stop Workers]).
  change (P w (observe w (run w sched (boot (service cfg 1))))).
  each_world w ltac:(explored 70 ltac:(look P; eexists; reflexivity)).
Qed.

(** C2. In a start-up that succeeds the Worker Pool is created once and
    started once, with twice [runtime.GOMAXPROCS(0)] as its bound; and in the
    whole life of the service, from start to stop, the pool is created,
    started with that bound and stopped, in that order and at most once
    each, so that the bound is never set again.  (The runtime keeps
    GOMAXPROCS positive and within 31 bits.) *)
Theorem pool_started_once
    (cfg : Config) (w : world) (sched sched' : list nat) (a : App) :
  (0 < GOMAXPROCS w < 2 ^ 31)%Z →
  result (run w sched (boot (New cfg))) = Some (Some a, None) →
  pool_calls (trace (run w sched (boot (New cfg))))
  = [workerpool_New; Start Workers (2 * GOMAXPROCS w)] ∧
  pool_calls (trace (run w sched' (boot (service cfg 1))))
  `prefix_of`
  [workerpool_New; Start Workers (2 * GOMAXPROCS w); Stop Workers].
Proof.
  intros Hprocs Hnew. rewrite <- (int_mul_double _ Hprocs). split.
  - by apply pool_calls_New with a.
  - apply pool_calls_service.
Qed.

Lemma pool_started_once_witness :
  pool_calls (trace (run (fair_world 4) (replicate 51 0)
                       (boot (New demo_config))))
  = [workerpool_New; Start Workers 8] ∧
  pool_calls (trace (run (fair_world 4) late_queue_stop
                       (boot (service demo_config 1))))
  `prefix_of` [workerpool_New; Start Workers 8; Stop Workers].
Proof.
  apply (pool_started_once demo_config (fair_world 4) (replicate 51 0)
           late_queue_stop
           {| config := demo_config; logger := Logger; stop := 0;
              queue := Queue; workers := Workers; server := Server;
              s3 := S3 |}).
  - simpl. lia.
  - reflexivity.
Defined.

(** ** Shutdown *)

Lemma shutdown_precedences (cfg : Config) (w : world) (sched : list nat) :
  let t := trace (run w sched (boot (service cfg 1))) in
  precedes (closes 0) (invokes (Stop Queue)) t ∧
  precedes (closes 0) (invokes (Stop Server)) t ∧
  precedes (returns (Stop Server)) (invokes (Stop Workers)) t.
Proof.
  pose (P := λ v : view (option error),
    precedes (closes 0) (invokes (Stop Queue)) (events v) ∧
    precedes (closes 0) (invokes (Stop Server)) (events v) ∧
    precedes (returns (Stop Server)) (invokes (Stop Workers)) (events v)).
  change (P (observe w (run w sched (boot (service cfg 1))))).
  each_world w ltac:(explored 70 ltac:(
    look P; split_and!; apply precedesb_sound; reflexivity)).
Qed.

(** C1, as stated, fails: with four processors and no failing call, the
    goroutine started by [New] calls the queue's [Stop] right after
    [App.Stop] has closed the stop channel, before the Worker Pool's [Stop]
    has returned (before it has even been called). *)
Lemma queue_stopped_before_pool_drained :
  ¬ precedes (returns (Stop Workers)) (invokes (Stop Queue))
      (trace (run (fair_world 4) eager_queue_stop
                (boot (service demo_config 1)))).
Proof. intros H%precedesb_complete. vm_compute in H. discriminate H. Qed.

(** C1, amended.  In the shutdown started by [App.Stop], the queue's [Stop]
    and the server's [Stop] are called only after the stop channel has been
    closed, and the Worker Pool's [Stop] only after the server's [Stop] has
    returned; the queue's [Stop] runs in a goroutine of its own and is not
    ordered with the Worker Pool's [Stop]: when no call fails there is a run
    in which it is called before the pool's [Stop] has returned and a run in
    which it is called after. *)
Theorem shutdown_order
    (cfg : Config) (w : world) (sched : list nat) (procs : Z) :
  let run_of w sched := trace (run w sched (boot (service cfg 1))) in
  precedes (closes 0) (invokes (Stop Queue)) (run_of w sched) ∧
  precedes (closes 0) (invokes (Stop Server)) (run_of w sched) ∧
  precedes (returns (Stop Server)) (invokes (Stop Workers)) (run_of w sched) ∧
  (count (invokes (Stop Queue)) (run_of (fair_world procs) eager_queue_stop)
   = 1 ∧
   count (returns (Stop Workers)) (run_of (fair_world procs) eager_queue_stop)
   = 0) ∧
  (count (invokes (Stop Queue)) (run_of (fair_world procs) late_queue_stop)
   = 1 ∧
   precedes (returns (Stop Workers)) (invokes (Stop Queue))
     (run_of (fair_world procs) late_queue_stop)).
Proof.
  intros run_of. subst run_of. cbv beta.
  destruct (shutdown_precedences cfg w sched) as (H1 & H2 & H3).
  split_and!; [done|done|done|reflexivity|reflexivity|reflexivity|].
  apply precedesb_sound. reflexivity.
Qed.

Lemma stop_called_once (cfg : Config) (w : world) (sched : list nat) :
  let m := run w sched (boot (service cfg 1)) in
  count (invokes (Stop Queue)) (trace m) ≤ 1 ∧
  crashed m = false ∧
  (quiescent w m = true → result m = Some None →
   count (closes 0) (trace m) = 1 ∧
   count (invokes (Stop Queue)) (trace m) = 1 ∧
   count (invokes (Stop Server)) (trace m) = 1 ∧
   count (invokes (Stop Workers)) (trace m) = 1).
Proof.
  pose (P := λ v : view (option error),
    count (invokes (Stop Queue)) (events v) ≤ 1 ∧
    panicked v = false ∧
    (at_rest v = true → returned v = Some None →
     count (closes 0) (events v) = 1 ∧
     count (invokes (Stop Queue)) (events v) = 1 ∧
     count (invokes (Stop Server)) (events v) = 1 ∧
     count (invokes (Stop Workers)) (events v) = 1)).
  change (P (observe w (run w sched (boot (service cfg 1))))).
  each_world w ltac:(explored 70 ltac:(
    look P; split_and!;
    [ vm_compute; lia | reflexivity
    | intros Hrest Hret;
      first [discriminate Hrest | discriminate Hret | by vm_compute] ])).
Qed.

Lemma stop_called_twice (cfg : Config) (w : world) (sched : list nat) :
  let m := run w sched (boot (service cfg 2)) in
  count (closes 0) (trace m) ≤ 1 ∧
  count (invokes (Stop Queue)) (trace m) ≤ 1 ∧
  count (invokes (Stop Server)) (trace m) ≤ 1 ∧
  count (invokes (Stop Workers)) (trace m) ≤ 1 ∧
  result m ≠ Some None ∧
  (quiescent w m = true → count (closes 0) (trace m) = 1 →
   crashed m = true ∧
   last (trace m) = Some (EvPanic "close of closed channel")).
Proof.
  pose (P := λ v : view (option error),
    count (closes 0) (events v) ≤ 1 ∧
    count (invokes (Stop Queue)) (events v) ≤ 1 ∧
    count (invokes (Stop Server)) (events v) ≤ 1 ∧
    count (invokes (Stop Workers)) (events v) ≤ 1 ∧
    returned v ≠ Some None ∧
    (at_rest v = true → count (closes 0) (events v) = 1 →
     panicked v = true ∧
     last (events v) = Some (EvPanic "close of closed channel"))).
  change (P (observe w (run w sched (boot (service cfg 2))))).
  each_world w ltac:(explored 70 ltac:(
    look P; split_and!;
    [ vm_compute; lia.. | discriminate
    | intros Hrest Hclose;
      first [discriminate Hrest | discriminate Hclose | by vm_compute] ])).
Qed.

(** C4, as stated, fails in its last part: with four processors and no
    failing call, the second call of [App.Stop] closes the stop channel
    again, and the process panics. *)
Lemma second_stop_panics :
  let m := run (fair_world 4) main_only (boot (service demo_config 2)) in
  crashed m = true ∧
  last (trace m) = Some (EvPanic "close of closed channel") ∧
  result m = None.
Proof. by vm_compute. Qed.

(** C4, amended.  [App.Stop] closes the stop channel, and that one closing
    reaches the queue through the goroutine of [New] while [App.Stop] itself
    stops the server and the Worker Pool.  Called once, it never panics, the
    queue's [Stop] is called at most once, and when the service has come to
    rest after a successful start the channel has been closed once and the
    [Stop] of the queue, of the server and of the pool have each been called
    exactly once.  Called twice, the second call does not return: nothing is
    closed or stopped a second time, and when the process has come to rest
    after the first closing it has panicked on closing the closed channel. *)
Theorem stop_is_one_shot (cfg : Config) (w : world) (sched sched' : list nat) :
  let m := run w sched (boot (service cfg 1)) in
  let m' := run w sched' (boot (service cfg 2)) in
  (count (invokes (Stop Queue)) (trace m) ≤ 1 ∧
   crashed m = false ∧
   (quiescent w m = true → result m = Some None →
    count (closes 0) (trace m) = 1 ∧
    count (invokes (Stop Queue)) (trace m) = 1 ∧
    count (invokes (Stop Server)) (trace m) = 1 ∧
    count (invokes (Stop Workers)) (trace m) = 1)) ∧
  (count (closes 0) (trace m') ≤ 1 ∧
   count (invokes (Stop Queue)) (trace m') ≤ 1 ∧
   count (invokes (Stop Server)) (trace m') ≤ 1 ∧
   count (invokes (Stop Workers)) (trace m') ≤ 1 ∧
   result m' ≠ Some None ∧
   (quiescent w m' = true → count (closes 0) (trace m') = 1 →
    crashed m' = true ∧
    last (trace m') = Some (EvPanic "close of closed channel"))).
Proof.
  split; [apply stop_called_once | apply stop_called_twice].
Qed.

Lemma stop_is_one_shot_witness :
  let m := run (fair_world 4) late_queue_stop (boot (service demo_config 1)) in
  let m' := run (fair_world 4) main_only (boot (service demo_config 2)) in
  (quiescent (fair_world 4) m = true ∧ result m = Some None ∧
   count (closes 0) (trace m) = 1 ∧
   count (invokes (Stop Queue)) (trace m) = 1 ∧
   count (invokes (Stop Server)) (trace m) = 1 ∧
   count (invokes (Stop Workers)) (trace m) = 1) ∧
  (quiescent (fair_world 4) m' = true ∧ count (closes 0) (trace m') = 1 ∧
   crashed m' = true ∧
   last (trace m') = Some (EvPanic "close of closed channel")).
Proof.
  destruct (stop_is_one_shot demo_config (fair_world 4)
              late_queue_stop main_only) as [(_ & _ & H1) (_ & _ & _ & _ & _ & H2)].
  split.
  - split; [reflexivity|]. split; [reflexivity|].
    apply H1; reflexivity.
  - split; [reflexivity|]. split; [reflexivity|].
    apply H2; reflexivity.
Defined.

(** ** The Worker Pool *)

Section PoolInvariants.
Import workerpool.
Implicit Types (p : Pool) (o : op) (ops : list op).

Lemma executing_le_units p : executing p ≤ length (units p).
Proof. unfold executing. apply List.filter_length_le. Qed.

Lemma Pull_units i p : length (units (Pull i p)) = length (units p).
Proof.
  unfold Pull. destruct (units p !! i) as [[]|]; try done.
  destruct (intake p); [done|]. destruct (stopping p); [done|].
  simpl. by rewrite length_insert.
Qed.

Lemma Finish_units i ok p :
  length (units (Finish i ok p)) = length (units p).
Proof.
  unfold Finish. destruct (units p !! i) as [[]|]; try done.
  destruct ok; [simpl; by rewrite length_insert|].
  case_decide; simpl; by rewrite length_insert.
Qed.

Lemma Exit_units i p : length (units (Exit i p)) = length (units p).
Proof.
  unfold Exit. destruct (units p !! i) as [[]|]; try done.
  destruct (stopping p); [|done]. simpl. by rewrite length_insert.
Qed.

(** Once started, a pool stays started and keeps the number of units it
    was started with, whatever happens to it. *)
Lemma apply_started o p :
  started p = true →
  started (apply o p) = true ∧
  length (units (apply o p)) = length (units p).
Proof.
  intros Hs. destruct o as [k|j|i|i ok| |i]; simpl.
  - unfold Start. by rewrite Hs.
  - done.
  - split; [|apply Pull_units].
    unfold Pull. destruct (units p !! i) as [[]|]; try done.
    destruct (intake p); [done|]. by destruct (stopping p).
  - split; [|apply Finish_units].
    unfold Finish. destruct (units p !! i) as [[]|]; try done.
    destruct ok; [done|]. by case_decide.
  - done.
  - split; [|apply Exit_units].
    unfold Exit. destruct (units p !! i) as [[]|]; try done.
    by destruct (stopping p).
Qed.

Lemma after_started ops : ∀ p,
  started p = true →
  started (after ops p) = true ∧
  length (units (after ops p)) = length (units p).
Proof.
  induction ops as [|o ops IH]; intros p Hs; [done|].
  destruct (apply_started o p Hs) as [Hs' Hlen].
  destruct (IH (apply o p) Hs') as [Hs'' Hlen'].
  simpl. split; [done|]. by rewrite Hlen', Hlen.
Qed.

Lemma Start_fresh k limit :
  started (Start k (New limit)).1 = true ∧
  length (units (Start k (New limit)).1) = Z.to_nat k.
Proof. split; [done|]. simpl. by rewrite length_replicate. Qed.
End PoolInvariants.

(** C5. A pool started with concurrency bound [k] never has more than [k]
    invocations of the grading function in progress, whatever is delivered,
    pulled, finished, stopped or started again afterwards. *)
Theorem concurrency_bound (k : Z) (limit : nat) (ops : list workerpool.op) :
  (0 ≤ k)%Z →
  (Z.of_nat (workerpool.executing
     (workerpool.after ops (workerpool.Start k (workerpool.New limit)).1))
   ≤ k)%Z.
Proof.
  intros Hk.
  destruct (Start_fresh k limit) as [Hs Hlen].
  destruct (after_started ops _ Hs) as [_ Hlen'].
  pose proof (executing_le_units
    (workerpool.after ops (workerpool.Start k (workerpool.New limit)).1)).
  lia.
Qed.

Lemma concurrency_bound_witness :
  (Z.of_nat (workerpool.executing
     (workerpool.after workerpool.busy
        (workerpool.Start 2 (workerpool.New 3)).1))
   ≤ 2)%Z.
Proof. apply concurrency_bound. lia. Defined.

(** C6. [Start] on a pool that has been started fails with
    [AlreadyStartedError] and leaves the pool, and so its executor units, as
    they were, whatever has happened to the pool since it was started. *)
Theorem start_twice_fails
    (k k' : Z) (limit : nat) (ops : list workerpool.op) :
  let p := workerpool.after ops (workerpool.Start k (workerpool.New limit)).1 in
  workerpool.Start k' p = (p, Some workerpool.AlreadyStartedError).
Proof.
  intros p. destruct (Start_fresh k limit) as [Hs _].
  destruct (after_started ops _ Hs) as [Hs' _].
  unfold workerpool.Start. fold p in Hs'. by rewrite Hs'.
Qed.

(** ** The JSON view of a user *)

Lemma User_json_keys (u : User) :
  omap json_key (User_fields u) = ["id"; "name"].
Proof. reflexivity. Qed.

(** C7. The JSON encoding of a [User] has the keys [id] and [name] only,
    and two users with the same [ID] and [Name] have the same encoding,
    whatever their [Password] and [IsAdmin], and whatever the encoder does
    with string values. *)
Theorem user_json_hides_secrets (quote : string → string) (u1 u2 : User) :
  ID u1 = ID u2 → Name u1 = Name u2 →
  MarshalWith quote u1 = MarshalWith quote u2 ∧
  omap json_key (User_fields u1) = ["id"; "name"] ∧
  omap json_key (User_fields u2) = ["id"; "name"].
Proof.
  intros Hid Hname. split; [|by rewrite !User_json_keys].
  unfold MarshalWith, encode_struct, User_fields. simpl.
  by rewrite Hid, Hname.
Qed.

Lemma user_json_hides_secrets_witness :
  Marshal alice = Marshal alice_admin ∧
  omap json_key (User_fields alice) = ["id"; "name"] ∧
  omap json_key (User_fields alice_admin) = ["id"; "name"].
Proof.
  apply (user_json_hides_secrets json_quote alice alice_admin); reflexivity.
Defined.

(** ** The defaults of the grader command *)





(** * Further properties *)

#[local] Set Warnings "-clear-no-such-hyp".

(** ** Start-up and shutdown, continued *)

Lemma every_run_surveyed {R : Type} (w : world) (P : remains R → Prop)
    (n : nat) (m : machine R) :
  frontier w n m = [] →
  Forall P (survey <$> explore w n m) →
  ∀ sched, P (survey (run w sched m)).
Proof.
  intros Hnil Hall sched. rewrite Forall_fmap, Forall_forall in Hall.
  apply Hall. by apply run_explore.
Qed.

Ltac surveyed n tac :=
  idtac;
  match goal with
  | |- ?P (survey (run ?w ?sched ?m)) =>
      revert sched; apply (every_run_surveyed w P n m);
      [ lazy -[int_mul]; reflexivity
      | let l := eval lazy -[int_mul] in (survey <$> explore w n m) in
        change (Forall P l);
        repeat (apply List.Forall_cons; [tac|]); apply List.Forall_nil ]
  end.

Ltac regard P :=
  unfold P; cbn [main_value happened goroutines channels GOMAXPROCS].

(** X1. While [New] runs, and after it has returned, nothing is stopped and
    nothing is received from the stop channel; and when [New] returns an
    error it has started no goroutine, made no channel and not started the
    Worker Pool: what the calls before the failure have opened stays open. *)
Theorem failed_start_releases_nothing
    (cfg : Config) (w : world) (sched : list nat) :
  let m := run w sched (boot (New cfg)) in
  count stops_something (trace m) = 0 ∧
  count receives (trace m) = 0 ∧
  ∀ e, result m = Some (None, Some e) →
    gos m = [] ∧ chans m = [] ∧
    count spawns (trace m) = 0 ∧ count (starts Workers) (trace m) = 0.
Proof.
  pose (P := λ r : remains (option App * option error),
    count stops_something (happened r) = 0 ∧
    count receives (happened r) = 0 ∧
    ∀ e, main_value r = Some (None, Some e) →
      goroutines r = 0 ∧ channels r = [] ∧
      count spawns (happened r) = 0 ∧
      count (starts Workers) (happened r) = 0).
  intros m. subst m.
  assert (P (survey (run w sched (boot (New cfg))))) as (H1 & H2 & H3).
  { each_world w ltac:(surveyed 60 ltac:(
      regard P; split_and!;
      [ reflexivity | reflexivity
      | intros e' He'; first [discriminate He' | by vm_compute] ])). }
  split; [done|]. split; [done|]. intros e He.
  destruct (H3 e He) as (Hg & Hc & Hs & Hw). simpl in Hg, Hc.
  split_and!; [by apply length_zero_iff_nil|done..].
Qed.

Lemma failed_start_releases_nothing_witness :
  let w := World None None None None (Some (Cause "bad key")) None None None
             None None None None 4%Z in
  let m := run w (replicate 51 0) (boot (New demo_config)) in
  result m = Some (None, Some (Errorf "token manager: " (Cause "bad key"))) ∧
  gos m = [] ∧ chans m = [] ∧
  count spawns (trace m) = 0 ∧ count (starts Workers) (trace m) = 0.
Proof.
  intros w m. split; [reflexivity|].
  destruct (failed_start_releases_nothing demo_config w (replicate 51 0))
    as (_ & _ & H).
  apply (H (Errorf "token manager: " (Cause "bad key"))). reflexivity.
Defined.

(** X2. When [New] returns an [App], it is the one built around the first
    channel, that channel is open, exactly one goroutine has been started,
    and the Worker Pool has been started exactly once. *)
Theorem successful_start_state
    (cfg : Config) (w : world) (sched : list nat) (a : App) (err : option error) :
  let m := run w sched (boot (New cfg)) in
  result m = Some (Some a, err) →
  a = the_app cfg ∧ err = None ∧
  chans m !! stop a = Some false ∧ length (chans m) = 1 ∧
  length (gos m) = 1 ∧ count spawns (trace m) = 1 ∧
  count (starts Workers) (trace m) = 1.
Proof.
  pose (P := λ r : remains (option App * option error),
    ∀ a err, main_value r = Some (Some a, err) →
      a = the_app cfg ∧ err = None ∧
      channels r !! stop a = Some false ∧ length (channels r) = 1 ∧
      goroutines r = 1 ∧ count spawns (happened r) = 1 ∧
      count (starts Workers) (happened r) = 1).
  intros m. subst m. revert a err.
  change (P (survey (run w sched (boot (New cfg))))).
  each_world w ltac:(surveyed 60 ltac:(
    regard P; intros a' err' Ha';
    first [ discriminate Ha'
          | injection Ha' as <- <-; by vm_compute ])).
Qed.

Lemma successful_start_state_witness :
  let m := run (fair_world 4) (replicate 51 0) (boot (New demo_config)) in
  the_app demo_config = the_app demo_config ∧ @None error = None ∧
  chans m !! stop (the_app demo_config) = Some false ∧
  length (chans m) = 1 ∧ length (gos m) = 1 ∧
  count spawns (trace m) = 1 ∧ count (starts Workers) (trace m) = 1.
Proof.
  apply (successful_start_state demo_config (fair_world 4) (replicate 51 0)
           (the_app demo_config) None).
  reflexivity.
Defined.
(** X3. A failure of the submission repository is reported under the
    prefix of the assessment repository: [New] returns the same error for
    it as for a failure of the assessment repository with the same cause. *)
Theorem repository_errors_coincide
    (cfg : Config) (e : error) (o9 o10 o11 o12 o10' o11' o12' : option error)
    (procs procs' : Z) :
  let r := Some (None, Some (Errorf "assessments repository: " e)) in
  result (run (assessments_fail e o9 o10 o11 o12 procs) (replicate 51 0)
            (boot (New cfg))) = r ∧
  result (run (submissions_fail e o10' o11' o12' procs') (replicate 51 0)
            (boot (New cfg))) = r.
Proof. split; reflexivity. Qed.

Lemma stop_returns_after_server_and_pool
    (cfg : Config) (w : world) (sched : list nat) :
  let m := run w sched (boot (service cfg 1)) in
  result m = Some None →
  count (returns (Stop Server)) (trace m) = 1 ∧
  count (returns (Stop Workers)) (trace m) = 1 ∧
  precedes (returns (Stop Server)) (returns (Stop Workers)) (trace m).
Proof.
  pose (P := λ v : view (option error),
    returned v = Some None →
    count (returns (Stop Server)) (events v) = 1 ∧
    count (returns (Stop Workers)) (events v) = 1 ∧
    precedes (returns (Stop Server)) (returns (Stop Workers)) (events v)).
  change (P (observe w (run w sched (boot (service cfg 1))))).
  each_world w ltac:(explored 70 ltac:(
    look P; intros Hret;
    first [ discriminate Hret
          | split_and!;
            [reflexivity | reflexivity | apply precedesb_sound; reflexivity] ])).
Qed.

(** X4. [App.Stop] waits for the server and for the Worker Pool but not for
    the queue: whenever the service has returned from [App.Stop], the
    [Stop] of the server and that of the pool have returned, in that order;
    yet when no call fails, the run in which only [main] moves ends with
    [App.Stop] returned and the queue's [Stop] never called. *)
Theorem stop_does_not_wait_for_queue
    (cfg : Config) (w : world) (sched : list nat) (procs : Z) :
  let m := run w sched (boot (service cfg 1)) in
  let m' := run (fair_world procs) main_only (boot (service cfg 1)) in
  result m = Some None →
  (count (returns (Stop Server)) (trace m) = 1 ∧
   count (returns (Stop Workers)) (trace m) = 1 ∧
   precedes (returns (Stop Server)) (returns (Stop Workers)) (trace m)) ∧
  (result m' = Some None ∧ count (invokes (Stop Queue)) (trace m') = 0 ∧
   quiescent (fair_world procs) m' = false).
Proof.
  intros m m' Hret. split.
  - by apply stop_returns_after_server_and_pool.
  - split_and!; reflexivity.
Qed.

Lemma stop_does_not_wait_for_queue_witness :
  let m := run (fair_world 4) late_queue_stop (boot (service demo_config 1)) in
  let m' := run (fair_world 4) main_only (boot (service demo_config 1)) in
  (count (returns (Stop Server)) (trace m) = 1 ∧
   count (returns (Stop Workers)) (trace m) = 1 ∧
   precedes (returns (Stop Server)) (returns (Stop Workers)) (trace m)) ∧
  (result m' = Some None ∧ count (invokes (Stop Queue)) (trace m') = 0 ∧
   quiescent (fair_world 4) m' = false).
Proof.
  apply (stop_does_not_wait_for_queue demo_config (fair_world 4)
           late_queue_stop 4).
  reflexivity.
Defined.

Lemma run_app {R : Type} (w : world) (s1 s2 : list nat) (m : machine R) :
  run w (s1 ++ s2) m = run w s2 (run w s1 m).
Proof. revert m. induction s1 as [|tid s1 IH]; intros m; [done|]. apply IH. Qed.

Lemma every_run_by {R A : Type} (w : world) (f : machine R → A)
    (P : A → Prop) (n : nat) (m : machine R) :
  frontier w n m = [] →
  Forall P (f <$> explore w n m) →
  ∀ sched, P (f (run w sched m)).
Proof.
  intros Hnil Hall sched. rewrite Forall_fmap, Forall_forall in Hall.
  apply Hall. by apply run_explore.
Qed.

Lemma Forall_checked {A : Type} (chk : A → bool) (P : A → Prop) (l : list A) :
  (∀ x, chk x = true → P x) → forallb chk l = true → Forall P l.
Proof.
  intros Hsound Hall. apply Forall_forall. intros x Hx.
  apply Hsound. rewrite List.forallb_forall in Hall.
  by apply Hall, list_elem_of_In.
Qed.

Lemma stopped_cleanly_sound (v : view (option error)) :
  stopped_cleanly v = true →
  at_rest v = true ∧ panicked v = false ∧ is_Some (returned v) ∧
  (returned v = Some None →
   count (invokes (Stop Queue)) (events v) = 1 ∧
   count (returns (Stop Queue)) (events v) = 1).
Proof.
  unfold stopped_cleanly. intros H.
  apply andb_true_iff in H as [H Hret].
  apply andb_true_iff in H as [Hrest Hpanic].
  apply negb_true_iff in Hpanic.
  split; [done|]. split; [done|].
  destruct (returned v) as [[e|]|]; [|split; [by eexists|intros _]|done].
  { split; [by eexists|]. intros [=]. }
  apply andb_true_iff in Hret as [H1 H2].
  by apply bool_decide_eq_true in H1, H2.
Qed.

Lemma stopped_cleanly_machine (w : world) (m : machine (option error)) :
  stopped_cleanly (observe w m) = true →
  quiescent w m = true ∧ crashed m = false ∧ is_Some (result m) ∧
  (result m = Some None →
   count (invokes (Stop Queue)) (trace m) = 1 ∧
   count (returns (Stop Queue)) (trace m) = 1).
Proof. exact (stopped_cleanly_sound (observe w m)). Qed.

(** X18. The shutdown cannot get stuck.  From whatever point a run of the
    service has reached, letting [main] and then the goroutine of [New]
    move brings the process to rest without a panic, with the service
    returned; and if the start had succeeded, the queue's [Stop] has then
    been called exactly once and has returned. *)
Theorem shutdown_completes (cfg : Config) (w : world) (sched : list nat) :
  let m := run w (sched ++ drain) (boot (service cfg 1)) in
  quiescent w m = true ∧ crashed m = false ∧ is_Some (result m) ∧
  (result m = Some None →
   count (invokes (Stop Queue)) (trace m) = 1 ∧
   count (returns (Stop Queue)) (trace m) = 1).
Proof.
  intros m. subst m. rewrite run_app.
  apply stopped_cleanly_machine.
  pose (f := λ (w : world) (m : machine (option error)),
    observe w (run w drain m)).
  pose (P := λ v : view (option error), stopped_cleanly v = true).
  change (P (f w (run w sched (boot (service cfg 1))))).
  revert sched.
  each_world w ltac:(
    idtac;
    match goal with
    | |- ∀ sched, P (f ?w' (run ?w' sched ?m0)) =>
        apply (every_run_by w' (f w') P 70 m0);
        [ lazy -[int_mul]; reflexivity
        | apply (Forall_checked stopped_cleanly); [done|];
          vm_compute; reflexivity ]
    end).
Qed.

Lemma shutdown_completes_witness :
  let m := run (fair_world 4) (eager_queue_stop ++ drain)
             (boot (service demo_config 1)) in
  count (invokes (Stop Queue)) (trace m) = 1 ∧
  count (returns (Stop Queue)) (trace m) = 1.
Proof.
  intros m.
  destruct (shutdown_completes demo_config (fair_world 4) eager_queue_stop)
    as (_ & _ & _ & H).
  apply H. reflexivity.
Defined.
(** ** The configuration of the commands, continued *)

Ltac decided := apply (bool_decide_unpack _); vm_compute; exact I.

Lemma defaultConfig_parses :
  ∃ c, toml defaultConfig = Some c ∧ dom c = list_to_set setting_keys.
Proof.
  assert (is_Some (toml defaultConfig)) as [c Hc] by decided.
  exists c. split; [done|].
  assert (from_option dom ∅ (toml defaultConfig)
          = (list_to_set setting_keys : gset string)) as Hdom by decided.
  by rewrite Hc in Hdom.
Qed.

(** What [initConfig] leaves in viper, whatever the command line. *)
Lemma initConfig_result (given : gmap string string) :
  ∃ c, toml defaultConfig = Some c ∧
    dom c = list_to_set setting_keys ∧
    initConfig (PersistentFlags given) = Some (configured c given).
Proof.
  destruct defaultConfig_parses as (c & Hc & Hdom).
  exists c. split; [done|]. split; [done|].
  unfold initConfig, PersistentFlags, viper.ReadConfig.
  rewrite lookup_insert_eq.
  rewrite lookup_insert_ne by done. rewrite lookup_singleton_eq.
  rewrite Hc. reflexivity.
Qed.

(** The environment matters to a setting only through the variable named
    after its key. *)
Lemma Get_same_variable (env env' : gmap string string)
    (c : gmap string setting) (given : gmap string string) (key : string) :
  env !! variable_of key = env' !! variable_of key →
  viper.Get env (configured c given) key
  = viper.Get env' (configured c given) key.
Proof.
  intros Heq. unfold viper.Get, viper.env_name, configured.
  cbn [viper.pflags viper.config viper.envKeyReplacer
       viper.automaticEnvApplied].
  fold (variable_of key). by rewrite Heq.
Qed.

Lemma Get_variable (env : gmap string string) (c : gmap string setting)
    (given : gmap string string) (key text : string) :
  given !! "verbose" = None → given !! "pretty" = None →
  env !! variable_of key = Some text → text ≠ EmptyString →
  viper.Get env (configured c given) key = Some (SString text).
Proof.
  intros Hv Hp Henv Htext.
  unfold viper.Get, viper.env_name, configured.
  cbn [viper.pflags viper.config viper.envKeyReplacer
       viper.automaticEnvApplied].
  fold (variable_of key). rewrite Henv.
  rewrite decide_False by done.
  unfold BoolP. rewrite Hv, Hp.
  destruct (decide (ToLower key = "log.pretty")) as [->|Hne1].
  { rewrite lookup_insert_eq. by destruct (c !! _). }
  rewrite lookup_insert_ne by done.
  destruct (decide (ToLower key = "log.verbose")) as [->|Hne2].
  { rewrite lookup_insert_eq. by destruct (c !! _). }
  rewrite lookup_insert_ne by done. rewrite lookup_empty.
  by destruct (c !! _).
Qed.




(** X6. A flag given on the command line decides its setting whatever the
    environment holds: [log.verbose] is the truth value of the text given
    for [verbose], and [log.pretty] that of the text given for [pretty]. *)
Theorem flag_overrides (env given : gmap string string)
    (flag key text : string) :
  (flag, key) ∈ [("verbose", "log.verbose"); ("pretty", "log.pretty")] →
  given !! flag = Some text →
  ∃ v, initConfig (PersistentFlags given) = Some v ∧
    viper.Get env v key = Some (SBool (ToBool text)).
Proof.
  intros Hin Hgiven.
  destruct (initConfig_result given) as (c & _ & _ & ->).
  eexists; split; [done|].
  unfold viper.Get, configured. cbn [viper.pflags].
  apply list_elem_of_In in Hin. destruct Hin as [[= <- <-]|[[= <- <-]|[]]].
  - change (ToLower "log.verbose") with "log.verbose".
    rewrite lookup_insert_ne by done. rewrite lookup_insert_eq.
    unfold BoolP. rewrite Hgiven. simpl.
    destruct (env !! _) as [t|]; [destruct (decide (t = EmptyString))|];
      by destruct (c !! _).
  - change (ToLower "log.pretty") with "log.pretty".
    rewrite lookup_insert_eq.
    unfold BoolP. rewrite Hgiven. simpl.
    destruct (env !! _) as [t|]; [destruct (decide (t = EmptyString))|];
      by destruct (c !! _).
Qed.

Lemma flag_overrides_witness :
  ∃ v, initConfig (PersistentFlags {[ "verbose" := "true" ]}) = Some v ∧
    viper.Get {[ "LOG_VERBOSE" := "0" ]} v "log.verbose"
    = Some (SBool (ToBool "true")).
Proof.
  apply (flag_overrides {[ "LOG_VERBOSE" := "0" ]} {[ "verbose" := "true" ]}
           "verbose" "log.verbose" "true"); [|reflexivity].
  apply list_elem_of_In. left. reflexivity.
Defined.

(** X7. An environment variable that is set but empty is ignored: the
    setting is what it would be without the variable. *)
Theorem empty_variable_is_ignored (env given : gmap string string)
    (key : string) :
  env !! variable_of key = Some EmptyString →
  ∃ v, initConfig (PersistentFlags given) = Some v ∧
    viper.Get env v key = viper.Get (delete (variable_of key) env) v key.
Proof.
  intros Henv.
  destruct (initConfig_result given) as (c & _ & _ & ->).
  eexists; split; [done|].
  unfold viper.Get, viper.env_name, configured.
  cbn [viper.pflags viper.config viper.envKeyReplacer
       viper.automaticEnvApplied].
  fold (variable_of key). by rewrite Henv, lookup_delete_eq.
Qed.

Lemma empty_variable_is_ignored_witness :
  ∃ v, initConfig (PersistentFlags ∅) = Some v ∧
    viper.Get {[ "SERVER_LISTEN" := EmptyString ]} v "server.listen"
    = viper.Get (delete (variable_of "server.listen")
                   {[ "SERVER_LISTEN" := EmptyString ]}) v "server.listen".
Proof.
  apply (empty_variable_is_ignored {[ "SERVER_LISTEN" := EmptyString ]} ∅
           "server.listen").
  reflexivity.
Defined.



Lemma errors_Is_chain (err target : error) :
  errors_Is err target = true ↔ target ∈ chain err.
Proof.
  induction err as [msg|prefix cause IH]; simpl.
  - rewrite orb_false_r, bool_decide_eq_true, list_elem_of_singleton.
    split; congruence.
  - rewrite orb_true_iff, bool_decide_eq_true, elem_of_cons, IH.
    split; intros [?|?]; try (left; congruence); by right.
Qed.

(** X9. [initDotEnv] lets the start go on when there is no [.env] file and
    when the file has been read; when the file cannot be read it lets the
    start go on exactly if [fs.ErrNotExist] is the error or is wrapped in
    it at any depth, and otherwise hands [logger.CheckErr] that error
    wrapped as ".env load: ".  The environment changes only when the file
    has been read. *)
Theorem initDotEnv_tolerates_missing_file
    (file : dotenv_file) (env : gmap string string) :
  match file with
  | Missing => initDotEnv file env = (env, None)
  | Parsed vars => initDotEnv file env = (env ∪ vars, None)
  | Unreadable err =>
      (fs_ErrNotExist ∈ chain err ∧ initDotEnv file env = (env, None)) ∨
      ((fs_ErrNotExist ∉ chain err) ∧
       initDotEnv file env = (env, Some (Errorf ".env load: " err)))
  end.
Proof.
  destruct file as [|err|vars]; [done| |done].
  unfold initDotEnv, godotenv_Load.
  destruct (errors_Is err fs_ErrNotExist) eqn:His; simpl.
  - left. split; [|done]. by apply errors_Is_chain.
  - right. split; [|done]. rewrite <- errors_Is_chain. congruence.
Qed.

(** X10. With a [.env] file that has been read and no flag on the command
    line, a setting is decided by the non-empty variable of the process
    environment named after it, whatever the file says; and by the
    non-empty variable of the file when the process environment does not
    have that variable at all. *)
Theorem dotenv_never_overrides_environment
    (env vars given : gmap string string) (key text : string) :
  given !! "verbose" = None → given !! "pretty" = None →
  text ≠ EmptyString →
  env !! variable_of key = Some text ∨
  (env !! variable_of key = None ∧ vars !! variable_of key = Some text) →
  ∃ env' v, initialize (Parsed vars) env given = Some (env', v) ∧
    viper.Get env' v key = Some (SString text).
Proof.
  intros Hv Hp Htext Hsrc.
  destruct (initConfig_result given) as (c & _ & _ & Hinit).
  exists (env ∪ vars), (configured c given). split.
  { unfold initialize. simpl. by rewrite Hinit. }
  apply Get_variable; [done..| |done].
  destruct Hsrc as [Henv|[Henv Hvars]].
  - by apply lookup_union_Some_l.
  - by rewrite lookup_union_r.
Qed.

Lemma dotenv_never_overrides_environment_witness :
  (∃ env' v,
     initialize (Parsed {[ "SERVER_LISTEN" := ":9000" ]})
       {[ "SERVER_LISTEN" := ":8000" ]} ∅ = Some (env', v) ∧
     viper.Get env' v "server.listen" = Some (SString ":8000")) ∧
  (∃ env' v,
     initialize (Parsed {[ "SERVER_LISTEN" := ":9000" ]}) ∅ ∅
     = Some (env', v) ∧
     viper.Get env' v "server.listen" = Some (SString ":9000")).
Proof.
  split.
  - apply (dotenv_never_overrides_environment
             {[ "SERVER_LISTEN" := ":8000" ]} {[ "SERVER_LISTEN" := ":9000" ]}
             ∅ "server.listen" ":8000");
      [reflexivity | reflexivity | discriminate | left; reflexivity].
  - apply (dotenv_never_overrides_environment
             ∅ {[ "SERVER_LISTEN" := ":9000" ]} ∅ "server.listen" ":9000");
      [reflexivity | reflexivity | discriminate
      | right; split; reflexivity].
Defined.




(** ** Identities *)

Lemma append_cons (c : ascii) (s t : string) :
  String c s +:+ t = String c (s +:+ t).
Proof. reflexivity. Qed.

Lemma append_nil_l (t : string) : EmptyString +:+ t = t.
Proof. reflexivity. Qed.

Lemma append_nil_r (s : string) : s +:+ EmptyString = s.
Proof.
  induction s as [|c s IH]; [done|]. by rewrite append_cons, IH.
Qed.

Lemma append_assoc (a b c : string) : (a +:+ b) +:+ c = a +:+ (b +:+ c).
Proof.
  induction a as [|x a IH]; [done|]. by rewrite !append_cons, IH.
Qed.

Lemma unhex_hex_byte (b : byte) (rest : string) :
  unhex (hex_byte b +:+ rest) = (b ::.) <$> unhex rest.
Proof. destruct b; reflexivity. Qed.

Lemma without_dashes_hex_byte (b : byte) (rest : string) :
  without_dashes (hex_byte b +:+ rest) = hex_byte b +:+ without_dashes rest.
Proof. destruct b; reflexivity. Qed.

Lemma without_dashes_dash (rest : string) :
  without_dashes ("-" +:+ rest) = without_dashes rest.
Proof. reflexivity. Qed.

Lemma hex_cons (b : byte) (l : list byte) : hex (b :: l) = hex_byte b +:+ hex l.
Proof. reflexivity. Qed.

Lemma hex_app (l k : list byte) : hex (l ++ k) = hex l +:+ hex k.
Proof.
  induction l as [|b l IH]; [done|].
  rewrite <- app_comm_cons, !hex_cons, IH. by rewrite append_assoc.
Qed.

Lemma unhex_hex (l : list byte) : unhex (hex l) = Some l.
Proof.
  induction l as [|b l IH]; [done|].
  by rewrite hex_cons, unhex_hex_byte, IH.
Qed.

Lemma without_dashes_hex (l : list byte) (rest : string) :
  without_dashes (hex l +:+ rest) = hex l +:+ without_dashes rest.
Proof.
  induction l as [|b l IH]; [done|].
  by rewrite hex_cons, !append_assoc, without_dashes_hex_byte, IH.
Qed.

(** The pieces that [UUID.String] prints make up the identifier. *)
Lemma UUID_pieces (u : UUID) :
  take 4 u ++ take 2 (drop 4 u) ++ take 2 (drop 6 u) ++ take 2 (drop 8 u)
  ++ drop 10 u = u.
Proof.
  replace (drop 10 u) with (drop 2 (drop 8 u)) by by rewrite drop_drop.
  rewrite take_drop.
  replace (drop 8 u) with (drop 2 (drop 6 u)) by by rewrite drop_drop.
  rewrite take_drop.
  replace (drop 6 u) with (drop 2 (drop 4 u)) by by rewrite drop_drop.
  rewrite take_drop. apply take_drop.
Qed.

Lemma identity_bytes_String (u : UUID) :
  identity_bytes (UUID_String u) = Some u.
Proof.
  unfold identity_bytes, UUID_String.
  rewrite <- (append_nil_r (hex (drop 10 u))).
  repeat (rewrite without_dashes_hex || rewrite without_dashes_dash).
  change (without_dashes EmptyString) with EmptyString.
  rewrite append_nil_r, <- !hex_app.
  by rewrite UUID_pieces, unhex_hex.
Qed.

(** X13. The identity of a user determines the [ID]: its digits, read back,
    are the bytes of the [ID], so two users with the same identity have the
    same [ID]. *)
Theorem identity_determines_id (u1 u2 : User) :
  Identity u1 = Identity u2 →
  identity_bytes (Identity u1) = Some (ID u1) ∧ ID u1 = ID u2.
Proof.
  intros Heq. split; [apply identity_bytes_String|].
  assert (Some (ID u1) = Some (ID u2)) as [= ->]; [|done].
  unfold Identity in Heq.
  by rewrite <- (identity_bytes_String (ID u1)), Heq, identity_bytes_String.
Qed.

Lemma identity_determines_id_witness :
  identity_bytes (Identity alice) = Some (ID alice) ∧
  ID alice = ID alice_admin.
Proof. apply (identity_determines_id alice alice_admin). reflexivity. Defined.
(** ** The routes *)

(** X14. The router that [New] sets up does not panic, and every route of
    it runs the panic recoverer and the logger first; every route under
    [/app] then runs the session middleware and the user middleware, in
    that order; and a route runs [auth.AuthMiddleware], last, exactly when
    it leads to the submission handler or to a handler of the
    administration: those are never reached without it, and the login, the
    registration, the logout and the start page are reached without it. *)
Theorem routes_are_guarded :
  ∃ rs, New_routes = Some rs ∧
    ∀ r, r ∈ rs →
      entry_chain r = chain_for (entry_handler r) ∧
      (auth_AuthMiddleware ∈ entry_chain r ↔ guarded (entry_handler r) = true).
Proof.
  exists (default [] New_routes). split; [by vm_compute|].
  apply Forall_forall.
  assert (Forall (λ r, entry_chain r = chain_for (entry_handler r) ∧
                       bool_decide (auth_AuthMiddleware ∈ entry_chain r)
                       = guarded (entry_handler r))
            (default [] New_routes)) as Hall by decided.
  eapply Forall_impl; [exact Hall|].
  intros r [Hchain Hauth]. split; [done|].
  rewrite <- Hauth. by rewrite bool_decide_eq_true.
Qed.

(** X15. No route is registered twice (no two routes have the same method
    and pattern), every handler that [New] constructs has a route, and the
    routes of the submission handler and of the administration lie under
    [/app/submit/] and [/app/admin/]. *)
Theorem routes_are_complete :
  ∃ rs, New_routes = Some rs ∧
    NoDup ((λ r, (entry_method r, entry_pattern r)) <$> rs) ∧
    (∀ h, ∃ r, r ∈ rs ∧ entry_handler r = h) ∧
    ∀ r, r ∈ rs → guarded (entry_handler r) = true →
      String.prefix "/app/submit/" (entry_pattern r) = true ∨
      String.prefix "/app/admin/" (entry_pattern r) = true.
Proof.
  exists (default [] New_routes). split; [by vm_compute|].
  split; [decided|]. split.
  - assert (Forall (λ h, Exists (λ r, entry_handler r = h)
                           (default [] New_routes)) all_endpoints)
      as Hall by decided.
    intros h. rewrite Forall_forall in Hall.
    assert (h ∈ all_endpoints) as Hin
      by (destruct h; unfold all_endpoints; repeat constructor).
    specialize (Hall h Hin). simpl in Hall.
    rewrite Exists_exists in Hall. destruct Hall as (r & Hr & Hh).
    by exists r.
  - assert (Forall (λ r, guarded (entry_handler r) = true →
              String.prefix "/app/submit/" (entry_pattern r) = true ∨
              String.prefix "/app/admin/" (entry_pattern r) = true)
              (default [] New_routes)) as Hall by decided.
    intros r Hr. rewrite Forall_forall in Hall. exact (Hall r Hr).
Qed.

Lemma routes_are_guarded_witness :
  let r := Entry GET "/app/admin/assessments"
             [middleware_Recoverer; mw_Log; session_ContextMiddleware;
              auth_ContextMiddleware; auth_AuthMiddleware]
             ah_AssessmentList in
  entry_chain r = chain_for (entry_handler r) ∧
  (auth_AuthMiddleware ∈ entry_chain r ↔ guarded (entry_handler r) = true).
Proof.
  intros r. destruct routes_are_guarded as (rs & Hrs & H).
  apply H. vm_compute in Hrs. injection Hrs as <-.
  unfold r. repeat constructor.
Defined.

Lemma routes_are_complete_witness :
  let r := Entry POST "/app/submit/{id}"
             [middleware_Recoverer; mw_Log; session_ContextMiddleware;
              auth_ContextMiddleware; auth_AuthMiddleware]
             sh_Create in
  String.prefix "/app/submit/" (entry_pattern r) = true ∨
  String.prefix "/app/admin/" (entry_pattern r) = true.
Proof.
  intros r. destruct routes_are_complete as (rs & Hrs & _ & _ & H).
  apply H; [|reflexivity]. vm_compute in Hrs. injection Hrs as <-.
  unfold r. repeat constructor.
Defined.
(** ** The migration *)

Lemma catalog_eq (c c' : catalog) :
  extensions c = extensions c' → tables c = tables c' → c = c'.
Proof. destruct c, c'; simpl; by intros -> ->. Qed.

(** X16. [Up] can be applied to any database and applied again without
    effect: it leaves every table it finds as it is, a table named users
    included, creates the users table only when there is none, and
    installs the two extensions. *)
Theorem up_is_idempotent (c : catalog) :
  migrate Up (migrate Up c) = migrate Up c ∧
  (∀ name t, tables c !! name = Some t →
     tables (migrate Up c) !! name = Some t) ∧
  (tables c !! "users" = None →
     tables (migrate Up c) = <["users" := users_table]> (tables c)) ∧
  extensions (migrate Up c) = {[ "uuid-ossp"; "pgcrypto" ]} ∪ extensions c.
Proof.
  unfold migrate, Up. cbn [foldl execute extensions tables].
  split_and!.
  - destruct (tables c !! "users") as [t|] eqn:Hu; cbn [tables extensions].
    + rewrite Hu. apply catalog_eq; simpl; [set_solver|done].
    + rewrite lookup_insert_eq. apply catalog_eq; simpl; [set_solver|done].
  - intros name t Hname.
    destruct (tables c !! "users") as [t'|] eqn:Hu; cbn [tables]; [done|].
    rewrite lookup_insert_ne; [done|]. intros <-. congruence.
  - by intros ->.
  - destruct (tables c !! "users"); cbn [extensions]; set_solver.
Qed.

Lemma up_is_idempotent_witness :
  let c := {| extensions := ∅; tables := ∅ |} in
  tables (migrate Up c) = <["users" := users_table]> (tables c).
Proof.
  intros c. destruct (up_is_idempotent c) as (_ & _ & H1 & _).
  apply H1. reflexivity.
Defined.


